(** * oairouter: registry, session affinity and SSE relay

    A shallow embedding of the routing and lifecycle plane of the
    OpenAI-compatible reverse proxy [oairouter]:

    - the backend registry ([registry.go]): [Register], [Unregister],
      [RefreshModels], [LookupByModel], [LookupByModelWithSession];
    - the SSE writer ([streaming/sse.go]);
    - the generic backend ([backends/generic.go]): [NewGenericBackend],
      [streamRequest], [ChatCompletionStream], [CompletionStream];
    - the relay loops of the router ([router.go]): [handleStream] and the
      older [handleChatCompletionsStream];
    - the read side of the registry ([LookupByID], [AllModels], the
      counts), the calls of the generic backend that do not stream and
      its health check, and the other handlers of the router
      ([handleAPIRequest], [handleGetModel], [handleHealth],
      [watchEvents], [NewRouter] and its options).

    Go maps are [gmap]s, slices are lists, [int]/[uint32] values are [Z]
    with the wrap-around written out, strings are byte strings ([string]
    of [ascii]).  Calls that leave the process (HTTP, the URL parser) are
    inputs of the operations that make them. *)

From Stdlib Require Import ZArith String Ascii List Lia.
From stdpp Require Import gmap strings list fin_maps sorting.

Open Scope Z_scope.

(** ** Go runtime outcomes *)

(** A Go expression either yields a value or panics (integer division by
    zero, index out of range). *)
Inductive outcome (A : Type) : Type :=
| Ret (a : A)
| Panic.
Arguments Ret {A} a.
Arguments Panic {A}.

#[global] Instance outcome_bind : MBind outcome := λ A B k o,
  match o with
  | Ret a => k a
  | Panic => Panic
  end.

(** Errors are opaque messages. *)
Definition error : Type := string.

(** [uint32(x)] for a non-negative [int]. *)
Definition uint32 (x : Z) : Z := x mod 2 ^ 32.

(** [s[i]] on a slice: panics out of range. *)
Definition slice_at {A : Type} (l : list A) (i : Z) : outcome A :=
  if (i <? 0) then Panic
  else match l !! Z.to_nat i with
       | Some a => Ret a
       | None => Panic
       end.

(** ** [hash/fnv]: the 32-bit FNV-1a hash *)

Module fnv.

Definition offset32 : Z := 2166136261.
Definition prime32 : Z := 16777619.

(** One step of [sum32a.Write]: [hash ^= c; hash *= prime32] on [uint32]. *)
Definition write_byte (hash : Z) (c : ascii) : Z :=
  uint32 (Z.lxor hash (Z.of_N (N_of_ascii c)) * prime32).

(** [h := fnv.New32a(); h.Write([]byte(s)); h.Sum32()] *)
Definition Sum32 (s : string) : Z :=
  fold_left write_byte (list_ascii_of_string s) offset32.

End fnv.

(** ** [sort.Slice]

    [sort.Slice(x, less)] leaves [x] a permutation of itself in which no
    element is [less] than an earlier one.  It is modelled by insertion
    sort; [sort_Slice_unique] below shows that on the slices the registry
    sorts (backends with pairwise distinct ids) every algorithm with this
    contract returns the same slice. *)

Fixpoint insert_by {A : Type} (less : A → A → bool) (x : A) (l : list A) : list A :=
  match l with
  | [] => [x]
  | y :: l' => if less y x then y :: insert_by less x l' else x :: y :: l'
  end.

Definition sort_Slice {A : Type} (less : A → A → bool) (l : list A) : list A :=
  foldr (insert_by less) [] l.

(** The order [sort.Slice] is asked to establish: no element is [less]
    than an earlier one. *)
Definition sorted_by {A : Type} (less : A → A → bool) (l : list A) : Prop :=
  StronglySorted (λ a b, less b a = false) l.

(** ** The backend registry ([registry.go]) *)

Module Registry.

(** [BackendType] *)
Inductive BackendType : Type :=
| BackendVLLM | BackendOllama | BackendLlamaCpp | BackendLMStudio | BackendGeneric.

(** What the registry observes of a [Backend] handle: its accessors and
    the current value of its health flag. *)
Record Backend : Type := {
  ID : string;
  Type_ : BackendType;
  BaseURL : string;
  IsHealthy : bool;
}.

(** [types.Model]; the registry reads only [ID]. *)
Record Model : Type := {
  Model_ID : string;
  Model_Object : string;
}.

(** [BackendRegistry]: [backends] maps a backend id to its handle,
    [models] maps a model id to the ids of the backends serving it. *)
Record BackendRegistry : Type := {
  backends : gmap string Backend;
  models : gmap string (list string);
}.

Definition NewBackendRegistry : BackendRegistry :=
  {| backends := ∅; models := ∅ |}.

(** [addModelMapping]: append [backendID] to the sequence of [modelID]
    unless it is there already.  (A missing key reads as the nil
    slice.) *)
Definition addModelMapping (modelID backendID : string)
    (r : BackendRegistry) : BackendRegistry :=
  let bs := default [] (models r !! modelID) in
  if existsb (λ bid, bool_decide (bid = backendID)) bs then r
  else {| backends := backends r;
          models := <[modelID := bs ++ [backendID]]> (models r) |}.

(** [Register].  [fetch] is the outcome of [b.Models(ctx)].  The Go
    function always returns a nil error. *)
Definition Register (b : Backend) (fetch : error + list Model)
    (r : BackendRegistry) : BackendRegistry :=
  let r1 := {| backends := <[ID b := b]> (backends r); models := models r |} in
  match fetch with
  | inl _ => r1
  | inr ms => foldl (λ r' model, addModelMapping (Model_ID model) (ID b) r') r1 ms
  end.

(** The loop shared by [Unregister] and [RefreshModels]: every sequence
    loses [id]; a sequence left empty is deleted.  (Deleting or
    overwriting the current key while ranging over a Go map is safe and
    every key is visited once.) *)
Definition removeMappings (id : string)
    (ms : gmap string (list string)) : gmap string (list string) :=
  omap (λ backendIDs : list string,
          let filtered := List.filter (λ bid, negb (bool_decide (bid = id))) backendIDs in
          match filtered with
          | [] => None
          | _ => Some filtered
          end) ms.

(** [Unregister] *)
Definition Unregister (id : string) (r : BackendRegistry) : BackendRegistry :=
  {| backends := delete id (backends r);
     models := removeMappings id (models r) |}.

(** [RefreshModels].  [fetch] is the outcome of [backend.Models(ctx)],
    asked only when the backend exists. *)
Definition RefreshModels (backendID : string) (fetch : error + list Model)
    (r : BackendRegistry) : BackendRegistry * option error :=
  match backends r !! backendID with
  | None => (r, Some ("backend not found: " ++ backendID)%string)
  | Some _ =>
    let r1 := {| backends := backends r;
                 models := removeMappings backendID (models r) |} in
    match fetch with
    | inl err => (r1, Some err)
    | inr ms =>
      (foldl (λ r' model, addModelMapping (Model_ID model) backendID r') r1 ms, None)
    end
  end.

(** The first loop of both lookups: the first id whose backend exists
    and is healthy. *)
Fixpoint firstHealthy (bs : gmap string Backend) (backendIDs : list string)
    : option Backend :=
  match backendIDs with
  | [] => None
  | bid :: rest =>
    match bs !! bid with
    | Some backend =>
      if IsHealthy backend then Some backend else firstHealthy bs rest
    | None => firstHealthy bs rest
    end
  end.

(** [LookupByModel]; [None] is the Go result [(nil, false)]. *)
Definition LookupByModel (r : BackendRegistry) (modelID : string) : option Backend :=
  match models r !! modelID with
  | None => None
  | Some [] => None
  | Some ((bid0 :: _) as backendIDs) =>
    match firstHealthy (backends r) backendIDs with
    | Some backend => Some backend
    | None => backends r !! bid0
    end
  end.

(** [LookupResult] *)
Record LookupResult : Type := {
  Result_Backend : Backend;
  SessionBroken : bool;
}.

(** [hashSessionToIndex]: [int(h.Sum32() % uint32(count))]; the
    remainder panics when [uint32(count)] is zero. *)
Definition hashSessionToIndex (sessionID : string) (count : Z) : outcome Z :=
  let c := uint32 count in
  if c =? 0 then Panic else Ret (fnv.Sum32 sessionID mod c).

(** The collecting loop of [LookupByModelWithSession]: the backends
    that exist, and those of them that are healthy, in sequence order. *)
Fixpoint collect (bs : gmap string Backend) (backendIDs : list string)
    : list Backend * list Backend :=
  match backendIDs with
  | [] => ([], [])
  | bid :: rest =>
    let '(allBackends, healthyBackends) := collect bs rest in
    match bs !! bid with
    | None => (allBackends, healthyBackends)
    | Some backend =>
      (backend :: allBackends,
       if IsHealthy backend then backend :: healthyBackends else healthyBackends)
    end
  end.

(** [allBackends[i].ID() < allBackends[j].ID()]: Go compares strings
    bytewise. *)
Definition lessID (a b : Backend) : bool := String.ltb (ID a) (ID b).

Definition len {A : Type} (l : list A) : Z := Z.of_nat (length l).

(** [LookupByModelWithSession]; [Ret None] is the Go result
    [(LookupResult{}, false)]. *)
Definition LookupByModelWithSession (r : BackendRegistry)
    (modelID sessionID : string) : outcome (option LookupResult) :=
  match models r !! modelID with
  | None => Ret None
  | Some [] => Ret None
  | Some ((bid0 :: _) as backendIDs) =>
    if String.eqb sessionID "" then
      match firstHealthy (backends r) backendIDs with
      | Some backend =>
        Ret (Some {| Result_Backend := backend; SessionBroken := false |})
      | None =>
        match backends r !! bid0 with
        | Some backend =>
          Ret (Some {| Result_Backend := backend; SessionBroken := false |})
        | None => Ret None
        end
      end
    else
      let '(allBackends, healthyBackends) := collect (backends r) backendIDs in
      let allBackends := sort_Slice lessID allBackends in
      let healthyBackends := sort_Slice lessID healthyBackends in
      if len allBackends =? 0 then Ret None
      else
        preferredIndex ← hashSessionToIndex sessionID (len allBackends);
        preferredBackend ← slice_at allBackends preferredIndex;
        if IsHealthy preferredBackend then
          Ret (Some {| Result_Backend := preferredBackend; SessionBroken := false |})
        else if 0 <? len healthyBackends then
          fallbackIndex ← hashSessionToIndex sessionID (len healthyBackends);
          fallback ← slice_at healthyBackends fallbackIndex;
          Ret (Some {| Result_Backend := fallback; SessionBroken := true |})
        else
          Ret (Some {| Result_Backend := preferredBackend; SessionBroken := true |})
  end.

(** *** The lookups as the specification words them *)

(** The backends mapped to [modelID] that exist in the backend table,
    in insertion order. *)
Definition mapped (r : BackendRegistry) (modelID : string) : list Backend :=
  omap (λ bid, backends r !! bid) (default [] (models r !! modelID)).

(** First-healthy selection: the first healthy backend of the sequence,
    else its first backend, else none. *)
Definition spec_LookupByModel (r : BackendRegistry) (modelID : string)
    : option Backend :=
  let bs := mapped r modelID in
  match List.find IsHealthy bs with
  | Some b => Some b
  | None => head bs
  end.

(** Session affinity for a non-empty session id. *)
Definition spec_all (r : BackendRegistry) (modelID : string) : list Backend :=
  sort_Slice lessID (mapped r modelID).




(** *** Operations and reachable states *)

Inductive op : Type :=
| OpRegister (b : Backend) (fetch : error + list Model)
| OpUnregister (id : string)
| OpRefreshModels (backendID : string) (fetch : error + list Model).

Definition step (r : BackendRegistry) (o : op) : BackendRegistry :=
  match o with
  | OpRegister b fetch => Register b fetch r
  | OpUnregister id => Unregister id r
  | OpRefreshModels backendID fetch => fst (RefreshModels backendID fetch r)
  end.

Definition run (ops : list op) : BackendRegistry :=
  foldl step NewBackendRegistry ops.

(** Registry soundness: every backend id of every sequence is a key of
    the backend table. *)
Definition sound (r : BackendRegistry) : Prop :=
  ∀ modelID backendIDs bid,
    models r !! modelID = Some backendIDs →
    bid ∈ backendIDs →
    is_Some (backends r !! bid).

(** Every handle is stored under its own id. *)
Definition keyed (r : BackendRegistry) : Prop :=
  ∀ k b, backends r !! k = Some b → ID b = k.

(** De-duplication by backend id, and no empty sequence is kept. *)
Definition deduplicated (r : BackendRegistry) : Prop :=
  ∀ modelID backendIDs,
    models r !! modelID = Some backendIDs →
    NoDup backendIDs ∧ backendIDs ≠ [].

Definition well_formed (r : BackendRegistry) : Prop :=
  sound r ∧ keyed r ∧ deduplicated r.

(** Ascending by backend id. *)
Definition ascending (l : list Backend) : Prop := sorted_by lessID l.

End Registry.

(** ** [strings]: the functions the stream producer uses *)

Module strings.

Definition byte (c : ascii) : N := N_of_ascii c.

(** The ASCII white space of [strings.TrimSpace]:
    tab, line feed, vertical tab, form feed, carriage return, space. *)
Definition asciiSpace (c : ascii) : bool :=
  let n := byte c in
  ((9 <=? n) && (n <=? 13) || (n =? 32))%N.

(** The two-byte UTF-8 encodings of white space: U+0085 and U+00A0. *)
Definition space2 (c1 c2 : ascii) : bool :=
  ((byte c1 =? 194) && ((byte c2 =? 133) || (byte c2 =? 160)))%N.

(** The three-byte encodings: U+1680, U+2000 to U+200A, U+2028, U+2029,
    U+202F, U+205F and U+3000. *)
Definition space3 (c1 c2 c3 : ascii) : bool :=
  let '(a, b, c) := (byte c1, byte c2, byte c3) in
  ((a =? 225) && (b =? 154) && (c =? 128)
   || (a =? 226) && (b =? 128)
      && ((128 <=? c) && (c <=? 138) || (c =? 168) || (c =? 169) || (c =? 175))
   || (a =? 226) && (b =? 129) && (c =? 159)
   || (a =? 227) && (b =? 128) && (c =? 128))%N.

(** Leading white space removed; [sp2] and [sp3] recognise the
    multi-byte encodings in the order the bytes are met. *)
Fixpoint trimLeftWith (sp2 : ascii → ascii → bool)
    (sp3 : ascii → ascii → ascii → bool) (s : string) : string :=
  match s with
  | EmptyString => EmptyString
  | String c1 s1 =>
    if asciiSpace c1 then trimLeftWith sp2 sp3 s1
    else
      match s1 with
      | EmptyString => s
      | String c2 s2 =>
        if sp2 c1 c2 then trimLeftWith sp2 sp3 s2
        else
          match s2 with
          | EmptyString => s
          | String c3 s3 =>
            if sp3 c1 c2 c3 then trimLeftWith sp2 sp3 s3 else s
          end
      end
  end.

Definition TrimLeftSpace (s : string) : string := trimLeftWith space2 space3 s.

(** Trailing white space is removed on the reversed bytes. *)
Definition TrimRightSpace (s : string) : string :=
  String.rev
    (trimLeftWith (λ c2 c1, space2 c1 c2) (λ c3 c2 c1, space3 c1 c2 c3)
                  (String.rev s)).

(** [strings.TrimSpace] *)
Definition TrimSpace (s : string) : string := TrimRightSpace (TrimLeftSpace s).

(** [strings.HasPrefix] *)
Fixpoint HasPrefix (s prefix : string) : bool :=
  match prefix, s with
  | EmptyString, _ => true
  | String p prefix', String c s' => Ascii.eqb c p && HasPrefix s' prefix'
  | String _ _, EmptyString => false
  end.

Fixpoint dropBytes (n : nat) (s : string) : string :=
  match n, s with
  | O, _ => s
  | S n', String _ s' => dropBytes n' s'
  | S _, EmptyString => EmptyString
  end.

(** [strings.TrimPrefix] *)
Definition TrimPrefix (s prefix : string) : string :=
  if HasPrefix s prefix then dropBytes (String.length prefix) s else s.

Definition newline : ascii := ascii_of_N 10.

(** The successive results of [reader.ReadString('\n')] on a body whose
    bytes are [s]: every complete line with its delimiter, then the
    bytes left without a delimiter, which come with the read error.
    [cur] holds the bytes of the line being read. *)
Fixpoint readStrings (cur : string) (s : string) : list string * string :=
  match s with
  | EmptyString => ([], cur)
  | String c s' =>
    if Ascii.eqb c newline then
      let '(lines, rest) := readStrings EmptyString s' in
      ((cur ++ String newline EmptyString)%string :: lines, rest)
    else readStrings (cur ++ String c EmptyString)%string s'
  end.

End strings.

(** ** API errors ([types/errors.go]) *)

Module Types.

Record ErrorDetail : Type := {
  Message : string;
  Type_ : string;
  Param : option string;
  Code : option string;
}.

Record APIError : Type := { Error : ErrorDetail }.

Definition ErrorTypeNotFound : string := "not_found_error".
Definition ErrorTypeServer : string := "server_error".

Definition NewAPIError (message errType : string) (code : option string) : APIError :=
  {| Error := {| Message := message; Type_ := errType; Param := None; Code := code |} |}.

Definition ServerError (message : string) : APIError :=
  NewAPIError message ErrorTypeServer None.

End Types.

(** ** The client connection and the SSE writer ([streaming/sse.go]) *)

Module Streaming.

(** What a write puts on the response body: formatted text, or the JSON
    encoding of an API error. *)
Inductive body_item : Type :=
| Text (s : string)
| JSON (e : Types.APIError).

(** An [http.ResponseWriter].  [faults] tells, for each write to come,
    whether it fails ([true]); once the list is used up writes succeed.
    A failed write leaves the body as it was. *)
Record ResponseWriter : Type := {
  canFlush : bool;
  Header : gmap string string;
  status : option Z;
  body : list body_item;
  faults : list bool;
}.

(** One write to [w]; the flag is [true] when it failed. *)
Definition write (item : body_item) (w : ResponseWriter) : ResponseWriter * bool :=
  match faults w with
  | true :: rest =>
    ({| canFlush := canFlush w; Header := Header w; status := status w;
        body := body w; faults := rest |}, true)
  | _ =>
    ({| canFlush := canFlush w; Header := Header w; status := status w;
        body := body w ++ [item]; faults := tail (faults w) |}, false)
  end.

Definition Header_Set (k v : string) (w : ResponseWriter) : ResponseWriter :=
  {| canFlush := canFlush w; Header := <[k := v]> (Header w); status := status w;
     body := body w; faults := faults w |}.

Definition WriteHeader (statusCode : Z) (w : ResponseWriter) : ResponseWriter :=
  {| canFlush := canFlush w; Header := Header w; status := Some statusCode;
     body := body w; faults := faults w |}.

(** [types.WriteError] *)
Definition WriteError (statusCode : Z) (err : Types.APIError)
    (w : ResponseWriter) : ResponseWriter :=
  let w := Header_Set "Content-Type" "application/json" w in
  let w := WriteHeader statusCode w in
  fst (write (JSON err) w).

(** [NewWriter]: nil when the response writer cannot flush.  The writer
    is its response writer. *)
Definition NewWriter (w : ResponseWriter) : option ResponseWriter :=
  if canFlush w then Some w else None.

(** [WriteHeaders] *)
Definition WriteHeaders (w : ResponseWriter) : ResponseWriter :=
  Header_Set "X-Accel-Buffering" "no"
    (Header_Set "Connection" "keep-alive"
       (Header_Set "Cache-Control" "no-cache"
          (Header_Set "Content-Type" "text/event-stream" w))).

Definition nl : string := String strings.newline EmptyString.

(** The text of [fmt.Fprintf(s.w, "data: %s\n\n", data)]. *)
Definition data_line (data : string) : string :=
  ("data: " ++ data ++ nl ++ nl)%string.

(** [WriteData]: the flag is [true] when an error is returned.  (The
    flush after a successful write does not change the body.) *)
Definition WriteData (data : string) (w : ResponseWriter) : ResponseWriter * bool :=
  write (Text (data_line data)) w.

(** [WriteDone] *)
Definition WriteDone (w : ResponseWriter) : ResponseWriter * bool :=
  WriteData "[DONE]" w.

(** The terminator as the client sees it. *)
Definition terminator : body_item := Text (data_line "[DONE]").

Definition is_terminator (item : body_item) : bool :=
  match item with
  | Text s => String.eqb s (data_line "[DONE]")
  | JSON _ => false
  end.

(** How many terminators the client has received. *)
Definition terminators (w : ResponseWriter) : nat :=
  length (List.filter is_terminator (body w)).

End Streaming.

(** ** The generic backend ([backends/generic.go]) *)

Module Backends.

(** [oairouter.StreamEvent] ([backend.go]); a nil [Err] is [None]. *)
Record StreamEvent : Type := {
  Data : string;
  Err : option error;
  Done : bool;
}.

(** [http.Client]; [Timeout] in nanoseconds. *)
Record HTTPClient : Type := { Timeout : Z }.

Definition Minute : Z := 60 * 1000000000.

(** How reading a body ends: [io.EOF], or another error. *)
Inductive read_end : Type :=
| EOF
| ReadError (e : error).

(** An upstream response: its status and the bytes of its body with
    the way reading them ends. *)
Record Response : Type := {
  StatusCode : Z;
  Status : string;
  Body : string;
  BodyEnd : read_end;
}.

Definition StatusOK : Z := 200.

(** The request context as the producer sees it: whether [ctx.Done()]
    is ready at the start of iteration [i], and [ctx.Err()]. *)
Record Context : Type := {
  ctx_Done : nat → bool;
  ctx_Err : error;
}.

(** The producer goroutine of [streamRequest].  [i] counts loop
    iterations; [lines], [rest] and [ending] are what
    [reader.ReadString] will return.  The result is the sequence of
    events sent on the channel before it is closed (every send is
    taken to be received). *)
Fixpoint produce (ctx : Context) (i : nat) (lines : list string)
    (rest : string) (ending : read_end) : list StreamEvent :=
  if ctx_Done ctx i then
    [ {| Data := ""; Err := Some (ctx_Err ctx); Done := true |} ]
  else
    match lines with
    | [] =>
      match ending with
      | ReadError err => [ {| Data := ""; Err := Some err; Done := true |} ]
      | EOF => [ {| Data := ""; Err := None; Done := true |} ]
      end
    | line :: lines' =>
      let line := strings.TrimSpace line in
      if String.eqb line "" || negb (strings.HasPrefix line "data: ") then
        produce ctx (S i) lines' rest ending
      else
        let data := strings.TrimPrefix line "data: " in
        if String.eqb data "[DONE]" then
          [ {| Data := data; Err := None; Done := true |} ]
        else
          {| Data := data; Err := None; Done := false |}
            :: produce ctx (S i) lines' rest ending
    end.

(** The events of a whole body. *)
Definition events_of (ctx : Context) (resp : Response) : list StreamEvent :=
  let '(lines, rest) := strings.readStrings EmptyString (Body resp) in
  produce ctx O lines rest (BodyEnd resp).

(** [streamRequest].  [newreq] is the error of
    [http.NewRequestWithContext] if any, [do] the outcome of
    [b.httpClient.Do(req)].  [inl] is the synchronous error (no channel);
    [inr] is the channel, given by the events it carries until closed. *)
Definition streamRequest (ctx : Context) (newreq : option error)
    (do : error + Response) : error + list StreamEvent :=
  match newreq with
  | Some err => inl err
  | None =>
    match do with
    | inl err => inl err
    | inr resp =>
      if negb (StatusCode resp =? StatusOK) then
        inl ("stream request failed: " ++ Status resp ++ " - " ++ Body resp)%string
      else inr (events_of ctx resp)
    end
  end.

(** *** The producer as the specification words it *)

Definition data_event (data : string) : StreamEvent :=
  {| Data := data; Err := None; Done := false |}.
Definition done_event : StreamEvent :=
  {| Data := "[DONE]"; Err := None; Done := true |}.
Definition eof_event : StreamEvent :=
  {| Data := ""; Err := None; Done := true |}.
Definition err_event (err : error) : StreamEvent :=
  {| Data := ""; Err := Some err; Done := true |}.

(** The payload of a line, read once its surrounding white space is
    trimmed: none for a blank line and for a line that does not begin
    with [data: ]. *)
Definition payload (line : string) : option string :=
  let line := strings.TrimSpace line in
  if String.eqb line "" || negb (strings.HasPrefix line "data: ") then None
  else Some (strings.TrimPrefix line "data: ").

Definition is_DONE (data : string) : bool := String.eqb data "[DONE]".

Fixpoint takeWhile {A : Type} (p : A → bool) (l : list A) : list A :=
  match l with
  | [] => []
  | x :: l' => if p x then x :: takeWhile p l' else []
  end.

(** The terminal event by cause: a [data: [DONE]] line, else the end
    of the body (EOF, or a read error). *)
Definition terminal_event (payloads : list string) (ending : read_end) : StreamEvent :=
  if existsb is_DONE payloads then done_event
  else match ending with
       | EOF => eof_event
       | ReadError err => err_event err
       end.

(** What there is to read of a body made of [lines] and ending with
    [ending], from iteration [i] on: a context found cancelled before a
    read ends the body there, as a read error [ctx.Err()] would. *)
Fixpoint readable (ctx : Context) (i : nat) (lines : list string)
    (ending : read_end) : list string * read_end :=
  if ctx_Done ctx i then ([], ReadError (ctx_Err ctx))
  else match lines with
       | [] => ([], ending)
       | line :: lines' =>
         let '(read, ending') := readable ctx (S i) lines' ending in
         (line :: read, ending')
       end.

(** The events of a body: one data event per payload before [[DONE]],
    then the terminal event. *)
Definition spec_events (ctx : Context) (resp : Response) : list StreamEvent :=
  let '(lines, ending) :=
    readable ctx O (fst (strings.readStrings EmptyString (Body resp))) (BodyEnd resp) in
  let payloads := omap payload lines in
  (data_event <$> takeWhile (λ d, negb (is_DONE d)) payloads)
    ++ [terminal_event payloads ending].

Section Requests.

(** The request types of package [types] are records with a [Model],
    a [Stream] flag and further fields, kept abstract. *)
Context {Fields : Type}.

Record Request : Type := {
  Model : string;
  Stream : bool;
  Other : Fields;
}.

(** [json.Marshal] on a request. *)
Context (json_Marshal : Request → error + string).

(** [chatReq.Stream = true] on the caller's struct. *)
Definition set_Stream (req : Request) : Request :=
  {| Model := Model req; Stream := true; Other := Other req |}.

(** [ChatCompletionStream]: the caller's request after the call, and
    the result.  [http] gives, for the marshalled body, the outcome
    of building and sending the request. *)
Definition ChatCompletionStream (ctx : Context)
    (http : string → option error * (error + Response))
    (chatReq : Request) : Request * (error + list StreamEvent) :=
  let chatReq := set_Stream chatReq in
  match json_Marshal chatReq with
  | inl err => (chatReq, inl err)
  | inr body =>
    (chatReq, streamRequest ctx (fst (http body)) (snd (http body)))
  end.

(** [CompletionStream] *)
Definition CompletionStream (ctx : Context)
    (http : string → option error * (error + Response))
    (compReq : Request) : Request * (error + list StreamEvent) :=
  let compReq := set_Stream compReq in
  match json_Marshal compReq with
  | inl err => (compReq, inl err)
  | inr body =>
    (compReq, streamRequest ctx (fst (http body)) (snd (http body)))
  end.

End Requests.

Section Construction.

(** [net/url]: the parsed URL type and [url.Parse]. *)
Context {URL : Type} (url_Parse : string → error + URL).

(** [GenericBackend] (the mutex is left out). *)
Record GenericBackend : Type := {
  id : string;
  backendType : Registry.BackendType;
  baseURL : URL;
  httpClient : HTTPClient;
  healthy : bool;
  models : list Registry.Model;
}.

(** [GenericBackendOption] *)
Definition GenericBackendOption : Type := GenericBackend → GenericBackend.

Definition WithHTTPClient (client : HTTPClient) : GenericBackendOption :=
  λ b, {| id := id b; backendType := backendType b; baseURL := baseURL b;
          httpClient := client; healthy := healthy b; models := models b |}.

Definition WithBackendType (t : Registry.BackendType) : GenericBackendOption :=
  λ b, {| id := id b; backendType := t; baseURL := baseURL b;
          httpClient := httpClient b; healthy := healthy b; models := models b |}.

(** [b.healthy.Store(v)] *)
Definition healthy_Store (v : bool) (b : GenericBackend) : GenericBackend :=
  {| id := id b; backendType := backendType b; baseURL := baseURL b;
     httpClient := httpClient b; healthy := v; models := models b |}.

(** [NewGenericBackend] *)
Definition NewGenericBackend (id_ baseURL_ : string)
    (opts : list GenericBackendOption) : error + GenericBackend :=
  match url_Parse baseURL_ with
  | inl err => inl ("invalid base URL: " ++ err)%string
  | inr u =>
    let b := {| id := id_;
                backendType := Registry.BackendGeneric;
                baseURL := u;
                httpClient := {| Timeout := 5 * Minute |};
                healthy := false;
                models := [] |} in
    let b := healthy_Store true b in
    inr (foldl (λ b opt, opt b) b opts)
  end.

(** [IsHealthy] *)
Definition IsHealthy (b : GenericBackend) : bool := healthy b.

(** The options this package offers. *)
Inductive package_option : GenericBackendOption → Prop :=
| opt_WithHTTPClient client : package_option (WithHTTPClient client)
| opt_WithBackendType t : package_option (WithBackendType t).

End Construction.

End Backends.

(** ** The relay loops of the router *)

Module Router.

Import Streaming Backends.

(** The [for event := range events] loop of [handleStream] (current
    [router.go]): the writer after the loop and the value of
    [streamEnded]. *)
Fixpoint handleStream_loop (events : list StreamEvent) (sse : ResponseWriter)
    : ResponseWriter * bool :=
  match events with
  | [] => (sse, false)
  | event :: events' =>
    match Err event with
    | Some _ => (sse, false)
    | None =>
      if Done event then (fst (WriteDone sse), true)
      else if negb (String.eqb (Data event) "") then
        let '(sse', failed) := WriteData (Data event) sse in
        if failed then (sse', false) else handleStream_loop events' sse'
      else handleStream_loop events' sse
    end
  end.

(** [handleStream].  [stream] is the outcome of [streamFn]. *)
Definition handleStream (w : ResponseWriter)
    (stream : error + list StreamEvent) : ResponseWriter :=
  match NewWriter w with
  | None =>
    WriteError 500 (Types.ServerError "streaming not supported") w
  | Some sse =>
    match stream with
    | inl err =>
      WriteError 500 (Types.ServerError ("backend error: " ++ err)%string) w
    | inr events =>
      let sse := WriteHeaders sse in
      let '(sse, streamEnded) := handleStream_loop events sse in
      if negb streamEnded then fst (WriteDone sse) else sse
    end
  end.

(** The loop of [handleChatCompletionsStream] and
    [handleCompletionsStream] (the [router.go] that has one handler
    per endpoint). *)
Fixpoint handleChatCompletionsStream_loop (events : list StreamEvent)
    (sse : ResponseWriter) : ResponseWriter :=
  match events with
  | [] => sse
  | event :: events' =>
    match Err event with
    | Some _ => sse
    | None =>
      if Done event && String.eqb (Data event) "[DONE]" then fst (WriteDone sse)
      else if negb (String.eqb (Data event) "") then
        let '(sse', failed) := WriteData (Data event) sse in
        if failed then sse' else handleChatCompletionsStream_loop events' sse'
      else handleChatCompletionsStream_loop events' sse
    end
  end.

(** [handleChatCompletionsStream].  [stream] is the outcome of
    [backend.ChatCompletionStream]. *)
Definition handleChatCompletionsStream (w : ResponseWriter)
    (stream : error + list StreamEvent) : ResponseWriter :=
  match NewWriter w with
  | None =>
    WriteError 500 (Types.ServerError "streaming not supported") w
  | Some sse =>
    match stream with
    | inl err =>
      WriteError 500 (Types.ServerError ("backend error: " ++ err)%string) w
    | inr events =>
      let sse := WriteHeaders sse in
      handleChatCompletionsStream_loop events sse
    end
  end.

(** The events a relay can meet: one that is neither terminal nor an
    error does not carry [[DONE]] as its data. *)
Definition relayable (events : list StreamEvent) : Prop :=
  Forall (λ e, Done e = false → Err e = None → Data e ≠ "[DONE]"%string) events.

End Router.

(** ** Scenarios used to exercise the definitions *)

Module Scenario.

Import Streaming Backends Registry.

(** [newMockBackend] of [registry_test.go]. *)
Definition newMockBackend (id : string) (healthy : bool) : Backend :=
  {| ID := id; Type_ := BackendGeneric;
     BaseURL := "http://localhost:8080"; IsHealthy := healthy |}.

Definition model (id : string) : Model :=
  {| Model_ID := id; Model_Object := "model" |}.

(** Three backends serving [test-model], registered out of order; the
    first in id order is unhealthy. *)
Definition fleet : BackendRegistry :=
  run [ OpRegister (newMockBackend "backend-c" true) (inr [model "test-model"]);
        OpRegister (newMockBackend "backend-a" false) (inr [model "test-model"]);
        OpRegister (newMockBackend "backend-b" true) (inr [model "test-model"]) ].

(** A backend that served two models is registered again, under the
    same id, by a handle that serves only the first. *)
Definition old_handle : Backend :=
  {| ID := "backend-a"; Type_ := BackendGeneric;
     BaseURL := "http://10.0.0.1:8000"; IsHealthy := true |}.
Definition new_handle : Backend :=
  {| ID := "backend-a"; Type_ := BackendVLLM;
     BaseURL := "http://10.0.0.2:8000"; IsHealthy := true |}.
Definition registered_twice : BackendRegistry :=
  Register new_handle (inr [model "m1"])
    (Register old_handle (inr [model "m1"; model "m2"]) NewBackendRegistry).

(** A context that is never cancelled. *)
Definition background : Context :=
  {| ctx_Done := λ _, false; ctx_Err := "context canceled" |}.

(** A fresh client connection that can flush and never fails. *)
Definition client : ResponseWriter :=
  {| canFlush := true; Header := ∅; status := None; body := []; faults := [] |}.

Definition ok_response (body_ : string) (ending : read_end) : Response :=
  {| StatusCode := 200; Status := "200 OK"; Body := body_; BodyEnd := ending |}.

(** An upstream that sends one chunk and closes without [[DONE]]. *)
Definition one_chunk_then_EOF : Response :=
  ok_response ("data: {x:1}" ++ nl ++ nl)%string EOF.

(** An upstream that sends one chunk and then fails. *)
Definition one_chunk_then_reset : Response :=
  ok_response ("data: {x:1}" ++ nl)%string (ReadError "connection reset by peer").

(** An upstream that indents its data line. *)
Definition indented_line : string := "  data: x".
Definition indented_chunk : Response :=
  ok_response (indented_line ++ nl)%string EOF.

Definition no_content : Response :=
  {| StatusCode := 204; Status := "204 No Content"; Body := ""; BodyEnd := EOF |}.

(** A stand-in for [url.Parse]: it refuses ASCII control characters, as
    [url.Parse] does, and keeps the URL as its text. *)
Definition has_ctl (s : string) : bool :=
  existsb (λ c, (N_of_ascii c <? 32)%N || (N_of_ascii c =? 127)%N)
          (list_ascii_of_string s).
Definition url_Parse (rawURL : string) : error + string :=
  if has_ctl rawURL then inl "net/url: invalid control character in URL"%string
  else inr rawURL.

(** A request with a [stream] flag that is off. *)
Definition request : Request (Fields := list string) :=
  {| Backends.Model := "test-model"; Stream := false; Other := ["hello"%string] |}.

End Scenario.

(** ** The read side of the registry ([registry.go]) *)

Module Inventory.

Import Registry.

(** [LookupByID]; [None] is the Go result [(nil, false)]. *)
Definition LookupByID (r : BackendRegistry) (id : string) : option Backend :=
  backends r !! id.

(** [Count] and [ModelCount] *)
Definition Count (r : BackendRegistry) : Z := Z.of_nat (size (backends r)).
Definition ModelCount (r : BackendRegistry) : Z := Z.of_nat (size (models r)).

(** [for _, b := range r.backends] visits every entry of the table
    once, in an order Go leaves open: [ranges r visited] says that
    [visited] is one of these orders.  [AllBackends] returns the
    backends in such an order. *)
Definition ranges (r : BackendRegistry) (visited : list Backend) : Prop :=
  visited ≡ₚ (map_to_list (backends r)).*2.

(** The body of the inner loop of [AllModels]: the model is indexed
    under the backend, and listed unless [seen]. *)
Definition AllModels_model (backendID : string)
    (st : BackendRegistry * gset string * list Model) (model : Model)
    : BackendRegistry * gset string * list Model :=
  let '(r, seen, allModels) := st in
  let r := addModelMapping (Model_ID model) backendID r in
  if decide (Model_ID model ∈ seen) then (r, seen, allModels)
  else (r, {[ Model_ID model ]} ∪ seen, allModels ++ [model]).

(** The body of its outer loop: a backend whose [Models(ctx)] fails is
    skipped. *)
Definition AllModels_backend (st : BackendRegistry * gset string * list Model)
    (visit : Backend * (error + list Model))
    : BackendRegistry * gset string * list Model :=
  match visit.2 with
  | inl _ => st
  | inr models => foldl (AllModels_model (ID visit.1)) st models
  end.

(** [AllModels].  [visited] lists the backends in the order of the
    range, each with the outcome of its [Models(ctx)].  The result is
    the registry after the call and the slice returned. *)
Definition AllModels (visited : list (Backend * (error + list Model)))
    (r : BackendRegistry) : BackendRegistry * list Model :=
  let '(r, _, allModels) := foldl AllModels_backend (r, ∅, []) visited in
  (r, allModels).

(** The model ids the successful [Models] calls of a range reported. *)
Definition reported (visited : list (Backend * (error + list Model)))
    (modelID : string) : Prop :=
  ∃ b ms, (b, inr ms) ∈ visited ∧ modelID ∈ Model_ID <$> ms.

(** The registry [AllModels] leaves after a visit: the models of a
    backend that answered are indexed under it. *)
Definition AllModels_index (r : BackendRegistry)
    (visit : Backend * (error + list Model)) : BackendRegistry :=
  match visit.2 with
  | inl _ => r
  | inr ms => foldl (λ r' model, addModelMapping (Model_ID model) (ID visit.1) r') r ms
  end.

(** A backend id is mapped to a model when it occurs in the model's
    sequence. *)
Definition serves (r : BackendRegistry) (backendID modelID : string) : Prop :=
  ∃ backendIDs, models r !! modelID = Some backendIDs ∧ backendID ∈ backendIDs.

(** [b] is what a lookup of [modelID] returns: what [LookupByModel]
    returns, or what [LookupByModelWithSession] returns for some
    session id. *)
Definition returned (r : BackendRegistry) (modelID : string) (b : Backend) : Prop :=
  LookupByModel r modelID = Some b
  ∨ ∃ sessionID broken,
      LookupByModelWithSession r modelID sessionID
      = Ret (Some {| Result_Backend := b; SessionBroken := broken |}).

(** The registry holds handles, so it sees the health flag of a
    backend change when a health check calls [setHealthy] on the handle
    registered under [id]. *)
Definition with_health (id : string) (healthy : bool) (r : BackendRegistry)
    : BackendRegistry :=
  {| backends :=
       alter (λ b, {| ID := ID b; Type_ := Type_ b; BaseURL := BaseURL b;
                      IsHealthy := healthy |}) id (backends r);
     models := models r |}.

(** The backend id an operation is about. *)
Definition target (o : op) : string :=
  match o with
  | OpRegister b _ => ID b
  | OpUnregister id => id
  | OpRefreshModels backendID _ => backendID
  end.

End Inventory.

(** ** The other API errors ([types/errors.go]) *)

Module APIErrors.

Import Types.

Definition ErrorTypeInvalidRequest : string := "invalid_request_error".

(** [InvalidRequestError] *)
Definition InvalidRequestError (message : string) : APIError :=
  NewAPIError message ErrorTypeInvalidRequest None.

(** [NotFoundError] *)
Definition NotFoundError (message : string) : APIError :=
  NewAPIError message ErrorTypeNotFound (Some "model_not_found"%string).

End APIErrors.

(** ** The calls of the generic backend that do not stream
    ([backends/generic.go]) *)

Module GenericCalls.

Import Backends.

Section Models.

Context {URL : Type}.

(** [json.NewDecoder(resp.Body).Decode(&modelsResp)], then
    [modelsResp.Data]. *)
Context (decode : Response → error + list Registry.Model).

(** [Models].  [newreq] is the error of [http.NewRequestWithContext]
    if any, [do] the outcome of [b.httpClient.Do(req)].  The result is
    the backend after the call, with its cache of models, and what the
    call returns. *)
Definition Models (newreq : option error) (do : error + Response)
    (b : GenericBackend (URL := URL))
    : GenericBackend (URL := URL) * (error + list Registry.Model) :=
  match newreq with
  | Some err => (b, inl err)
  | None =>
    match do with
    | inl err => (b, inl err)
    | inr resp =>
      if negb (StatusCode resp =? StatusOK) then
        (b, inl ("models request failed: " ++ Status resp ++ " - " ++ Body resp)%string)
      else
        match decode resp with
        | inl err => (b, inl ("failed to decode models response: " ++ err)%string)
        | inr data =>
          ({| id := id b; backendType := backendType b; baseURL := baseURL b;
              httpClient := httpClient b; healthy := healthy b; models := data |},
           inr data)
        end
    end
  end.

(** [setHealthy] *)
Definition setHealthy (healthy : bool) (b : GenericBackend (URL := URL))
    : GenericBackend (URL := URL) :=
  healthy_Store healthy b.

(** [HealthCheck]: the backend after the check and the error returned. *)
Definition HealthCheck (newreq : option error) (do : error + Response)
    (b : GenericBackend (URL := URL))
    : GenericBackend (URL := URL) * option error :=
  let '(b, result) := Models newreq do b in
  let err := match result with inl err => Some err | inr _ => None end in
  (setHealthy (bool_decide (err = None)) b, err).

End Models.

Section Calls.

(** A request type of package [types] and the type of its response. *)
Context {Req Resp : Type}.

(** [json.Marshal] on the request and
    [json.NewDecoder(resp.Body).Decode] into the response. *)
Context (json_Marshal : Req → error + string) (decode : Response → error + Resp).

(** [ChatCompletion].  [http] gives, for the marshalled body, the
    outcome of building and of sending the request. *)
Definition ChatCompletion (http : string → option error * (error + Response))
    (chatReq : Req) : error + Resp :=
  match json_Marshal chatReq with
  | inl err => inl err
  | inr body =>
    match fst (http body) with
    | Some err => inl err
    | None =>
      match snd (http body) with
      | inl err => inl err
      | inr resp =>
        if negb (StatusCode resp =? StatusOK) then
          inl ("chat completion failed: " ++ Status resp ++ " - " ++ Body resp)%string
        else
          match decode resp with
          | inl err => inl ("failed to decode chat response: " ++ err)%string
          | inr chatResp => inr chatResp
          end
      end
    end
  end.

(** [Completion] *)
Definition Completion (http : string → option error * (error + Response))
    (compReq : Req) : error + Resp :=
  match json_Marshal compReq with
  | inl err => inl err
  | inr body =>
    match fst (http body) with
    | Some err => inl err
    | None =>
      match snd (http body) with
      | inl err => inl err
      | inr resp =>
        if negb (StatusCode resp =? StatusOK) then
          inl ("completion failed: " ++ Status resp ++ " - " ++ Body resp)%string
        else
          match decode resp with
          | inl err => inl ("failed to decode completion response: " ++ err)%string
          | inr compResp => inr compResp
          end
      end
    end
  end.

(** [Embeddings] *)
Definition Embeddings (http : string → option error * (error + Response))
    (embReq : Req) : error + Resp :=
  match json_Marshal embReq with
  | inl err => inl err
  | inr body =>
    match fst (http body) with
    | Some err => inl err
    | None =>
      match snd (http body) with
      | inl err => inl err
      | inr resp =>
        if negb (StatusCode resp =? StatusOK) then
          inl ("embeddings failed: " ++ Status resp ++ " - " ++ Body resp)%string
        else
          match decode resp with
          | inl err => inl ("failed to decode embeddings response: " ++ err)%string
          | inr embResp => inr embResp
          end
      end
    end
  end.

End Calls.

End GenericCalls.

(** ** The handlers of the router ([router.go]) *)

Module Handlers.

Import Streaming Backends Registry Inventory Router.

(** [SessionHeader] and [SessionBrokenHeader] ([registry.go]) *)
Definition SessionHeader : string := "X-Session-ID".
Definition SessionBrokenHeader : string := "X-Session-Broken".

(** [EventType] and its constants *)
Definition EventType : Type := string.
Definition EventAdded : EventType := "added".
Definition EventRemoved : EventType := "removed".
Definition EventUpdated : EventType := "updated".

(** [DiscoveryEvent] *)
Record DiscoveryEvent : Type := {
  Event_Type : EventType;
  Event_Backend : Backend;
}.

(** [watchEvents], on the registry of the router.  [ctx_Done ctx i]
    tells whether the [select] of iteration [i] takes the [ctx.Done()]
    case; [events] are the events the channel delivers until it is
    closed, each with the outcome of the [Models(ctx)] call its handling
    makes, if it makes one. *)
Fixpoint watchEvents (ctx : Context) (i : nat)
    (events : list (DiscoveryEvent * (error + list Model)))
    (r : BackendRegistry) : BackendRegistry :=
  if ctx_Done ctx i then r
  else
    match events with
    | [] => r
    | (event, fetch) :: events' =>
      let r :=
        if String.eqb (Event_Type event) EventAdded then
          Register (Event_Backend event) fetch r
        else if String.eqb (Event_Type event) EventRemoved then
          Unregister (ID (Event_Backend event)) r
        else if String.eqb (Event_Type event) EventUpdated then
          fst (RefreshModels (ID (Event_Backend event)) fetch r)
        else r in
      watchEvents ctx (S i) events' r
    end.

Section Routers.

(** [*slog.Logger] and the implementations of [Discoverer]. *)
Context {Logger Discoverer : Type}.

(** [Router]: its configuration and its registry.  (The multiplexer,
    whose routes are fixed, and the fields that serve [Start] and
    [Stop] are left out.) *)
Record Router : Type := {
  registry : BackendRegistry;
  discoverers : list Discoverer;
  httpClient : HTTPClient;
  logger : Logger;
  defaultBackend : string;
  healthCheckInterval : Z;
  sessionAffinity : bool;
}.

(** [Option] ([options.go]): the router after the option is applied,
    and the error it returns. *)
Definition Option : Type := Router → Router * option error.

Definition WithLogger (l : Logger) : Option :=
  λ r, ({| registry := registry r; discoverers := discoverers r;
           httpClient := httpClient r; logger := l;
           defaultBackend := defaultBackend r;
           healthCheckInterval := healthCheckInterval r;
           sessionAffinity := sessionAffinity r |}, None).

Definition WithHTTPClient (c : HTTPClient) : Option :=
  λ r, ({| registry := registry r; discoverers := discoverers r;
           httpClient := c; logger := logger r;
           defaultBackend := defaultBackend r;
           healthCheckInterval := healthCheckInterval r;
           sessionAffinity := sessionAffinity r |}, None).

Definition WithHealthCheckInterval (d : Z) : Option :=
  λ r, ({| registry := registry r; discoverers := discoverers r;
           httpClient := httpClient r; logger := logger r;
           defaultBackend := defaultBackend r;
           healthCheckInterval := d;
           sessionAffinity := sessionAffinity r |}, None).

Definition WithDefaultBackend (backendID : string) : Option :=
  λ r, ({| registry := registry r; discoverers := discoverers r;
           httpClient := httpClient r; logger := logger r;
           defaultBackend := backendID;
           healthCheckInterval := healthCheckInterval r;
           sessionAffinity := sessionAffinity r |}, None).

Definition WithDiscoverer (d : Discoverer) : Option :=
  λ r, ({| registry := registry r; discoverers := discoverers r ++ [d];
           httpClient := httpClient r; logger := logger r;
           defaultBackend := defaultBackend r;
           healthCheckInterval := healthCheckInterval r;
           sessionAffinity := sessionAffinity r |}, None).

Definition WithSessionAffinity (enabled : bool) : Option :=
  λ r, ({| registry := registry r; discoverers := discoverers r;
           httpClient := httpClient r; logger := logger r;
           defaultBackend := defaultBackend r;
           healthCheckInterval := healthCheckInterval r;
           sessionAffinity := enabled |}, None).

(** The options this package offers. *)
Inductive package_option : Option → Prop :=
| opt_WithLogger l : package_option (WithLogger l)
| opt_WithHTTPClient c : package_option (WithHTTPClient c)
| opt_WithHealthCheckInterval d : package_option (WithHealthCheckInterval d)
| opt_WithDefaultBackend backendID : package_option (WithDefaultBackend backendID)
| opt_WithDiscoverer d : package_option (WithDiscoverer d)
| opt_WithSessionAffinity enabled : package_option (WithSessionAffinity enabled).

(** The loop of [NewRouter] over the options: the first error ends
    it. *)
Fixpoint NewRouter_options (opts : list Option) (r : Router) : error + Router :=
  match opts with
  | [] => inr r
  | opt :: opts' =>
    let '(r, err) := opt r in
    match err with
    | Some err => inl err
    | None => NewRouter_options opts' r
    end
  end.

Definition Second : Z := 1000000000.

(** [NewRouter]; [slog_Default] is [slog.Default()]. *)
Definition NewRouter (slog_Default : Logger) (opts : list Option) : error + Router :=
  NewRouter_options opts
    {| registry := NewBackendRegistry;
       discoverers := [];
       httpClient := {| Timeout := 5 * Minute |};
       logger := slog_Default;
       defaultBackend := "";
       healthCheckInterval := 30 * Second;
       sessionAffinity := false |}.

Section APIRequests.

(** The request and response types of an endpoint. *)
Context {Req Resp : Type}.

(** [json.NewEncoder(w).Encode(resp)]: the text written. *)
Context (json_Encode : Resp → string).

(** [handlerConfig]; a nil [stream] or [isStreaming] is [None].
    [execute] and [stream] give the outcome of the call on the
    backend. *)
Record handlerConfig : Type := {
  getModel : Req → string;
  execute : Backend → Req → error + Resp;
  stream : option (Backend → Req → error + list StreamEvent);
  isStreaming : option (Req → bool);
  errorContext : string;
}.

(** [handleAPIRequest] from the point where the backend is chosen. *)
Definition handleAPIRequest_serve (w : ResponseWriter) (backend : Backend)
    (sessionBroken : bool) (apiReq : Req) (cfg : handlerConfig) : ResponseWriter :=
  let w := if sessionBroken then Header_Set SessionBrokenHeader "true" w else w in
  let streaming :=
    match stream cfg, isStreaming cfg with
    | Some streamFn, Some isStreaming =>
      if isStreaming apiReq then Some streamFn else None
    | _, _ => None
    end in
  match streaming with
  | Some streamFn =>
    handleStream w (streamFn backend apiReq)
  | None =>
    match execute cfg backend apiReq with
    | inl err =>
      WriteError 500 (Types.ServerError ("backend error: " ++ err)%string) w
    | inr resp =>
      fst (write (Text (json_Encode resp))
                 (Header_Set "Content-Type" "application/json" w))
    end
  end.

(** [handleAPIRequest].  [decoded] is the outcome of decoding the
    request body, [sessionID] the value of
    [req.Header.Get(SessionHeader)]. *)
Definition handleAPIRequest (r : Router) (w : ResponseWriter)
    (decoded : error + Req) (sessionID : string) (cfg : handlerConfig)
    : outcome ResponseWriter :=
  match decoded with
  | inl err =>
    Ret (WriteError 400
           (APIErrors.InvalidRequestError ("invalid request body: " ++ err)%string) w)
  | inr apiReq =>
    let model := getModel cfg apiReq in
    let fallback : option Backend :=
      if negb (String.eqb (defaultBackend r) "") then
        LookupByID (registry r) (defaultBackend r)
      else None in
    chosen ←
      (if sessionAffinity r then
         result ← LookupByModelWithSession (registry r) model sessionID;
         match result with
         | Some result => Ret (Some (Result_Backend result, SessionBroken result))
         | None => Ret ((λ backend, (backend, false)) <$> fallback)
         end
       else
         match LookupByModel (registry r) model with
         | Some backend => Ret (Some (backend, false))
         | None => Ret ((λ backend, (backend, false)) <$> fallback)
         end);
    match chosen with
    | None =>
      Ret (WriteError 404
             (APIErrors.NotFoundError ("model not found: " ++ model)%string) w)
    | Some (backend, sessionBroken) =>
      Ret (handleAPIRequest_serve w backend sessionBroken apiReq cfg)
    end
  end.

End APIRequests.

(** The status [handleHealth] reports. *)
Record HealthStatus : Type := {
  Health_Status : string;
  BackendsTotal : Z;
  BackendsHealthy : Z;
  ModelsAvailable : Z;
}.

(** The status [handleHealth] builds.  [backends] is the slice
    [r.registry.AllBackends()] returned. *)
Definition health_status (backends : list Backend) (r : Router) : HealthStatus :=
  let healthy := foldl (λ healthy b, if IsHealthy b then healthy + 1 else healthy) 0 backends in
  let status := if (healthy =? 0) && (0 <? len backends) then "degraded" else "ok" in
  {| Health_Status := status;
     BackendsTotal := len backends;
     BackendsHealthy := healthy;
     ModelsAvailable := ModelCount (registry r) |}.

(** [handleHealth]; [json_Encode] is the encoding of the status. *)
Definition handleHealth (json_Encode : HealthStatus → string)
    (backends : list Backend) (r : Router) (w : ResponseWriter) : ResponseWriter :=
  fst (write (Text (json_Encode (health_status backends r)))
             (Header_Set "Content-Type" "application/json" w)).

End Routers.

(** [handleGetModel], on the registry of the router.  [pathValue] is
    [req.PathValue("model")], [urlPath] is [req.URL.Path], [visited]
    is the range of [AllModels] with the outcomes of the [Models]
    calls.  The result is the registry after the request and the
    response. *)
Definition handleGetModel (json_Encode : Model → string)
    (pathValue urlPath : string)
    (visited : list (Backend * (error + list Model)))
    (r : BackendRegistry) (w : ResponseWriter) : BackendRegistry * ResponseWriter :=
  let modelID :=
    if String.eqb pathValue "" then strings.TrimPrefix urlPath "/v1/models/"
    else pathValue in
  if String.eqb modelID "" then
    (r, WriteError 400 (APIErrors.InvalidRequestError "model ID required") w)
  else
    let '(r, models) := AllModels visited r in
    match List.find (λ model, String.eqb (Model_ID model) modelID) models with
    | Some model =>
      (r, fst (write (Text (json_Encode model))
                     (Header_Set "Content-Type" "application/json" w)))
    | None =>
      (r, WriteError 404
            (APIErrors.NotFoundError ("model not found: " ++ modelID)%string) w)
    end.

End Handlers.

(** The bytes of a string, as a list. *)
Abbreviation chars := list_ascii_of_string.

(** ** The relay as its two ends see it *)

Module Wire.

Import Streaming Backends.

(** The data [handleStream] passes on: the data, when not empty, of the
    events that come before the first terminal or error event. *)
Definition relayed (events : list StreamEvent) : list string :=
  List.filter (λ data, negb (String.eqb data ""))
    (Data <$> takeWhile (λ event, match Err event with
                                  | None => negb (Done event)
                                  | Some _ => false
                                  end) events).

(** The bytes of the text written to a response body. *)
Fixpoint bytes (items : list body_item) : string :=
  match items with
  | [] => EmptyString
  | Text s :: items' => (s ++ bytes items')%string
  | JSON _ :: items' => bytes items'
  end.

Fixpoint last_byte (s : string) : option ascii :=
  match s with
  | EmptyString => None
  | String c EmptyString => Some c
  | String _ s' => last_byte s'
  end.

(** A payload that a data line carries as it is: it holds no line
    feed, ends with an ASCII byte that is not white space (as the
    closing brace of a JSON chunk), and is not [[DONE]]. *)
Definition plain (data : string) : bool :=
  forallb (λ c, negb (Ascii.eqb c strings.newline)) (chars data)
  && match last_byte data with
     | Some c => (strings.byte c <? 128)%N && negb (strings.asciiSpace c)
     | None => false
     end
  && negb (is_DONE data).

End Wire.

(** ** More scenarios *)

Module Fixtures.

Import Streaming Backends Registry Inventory Handlers Scenario.

(** The operations that build [fleet], and the same registrations in
    id order. *)
Definition fleet_ops : list op :=
  [ OpRegister (newMockBackend "backend-c" true) (inr [model "test-model"]);
    OpRegister (newMockBackend "backend-a" false) (inr [model "test-model"]);
    OpRegister (newMockBackend "backend-b" true) (inr [model "test-model"]) ].
Definition fleet_ops_sorted : list op :=
  [ OpRegister (newMockBackend "backend-a" false) (inr [model "test-model"]);
    OpRegister (newMockBackend "backend-b" true) (inr [model "test-model"]);
    OpRegister (newMockBackend "backend-c" true) (inr [model "test-model"]) ].

(** Two backends of [test-model], both unhealthy. *)
Definition all_down_ops : list op :=
  [ OpRegister (newMockBackend "backend-a" false) (inr [model "test-model"]);
    OpRegister (newMockBackend "backend-b" false) (inr [model "test-model"]) ].

(** The range of [AllModels] over [fleet]: [backend-b] does not answer. *)
Definition fleet_visit : list (Backend * (error + list Model)) :=
  [ (newMockBackend "backend-a" false, inr [model "test-model"; model "small"]);
    (newMockBackend "backend-b" true, inl "connection refused"%string);
    (newMockBackend "backend-c" true, inr [model "test-model"]) ].

(** A router over [fleet] with session affinity, and one without that
    falls back to [backend-b]. *)
Definition router_over (r : BackendRegistry) (defaultBackend : string)
    (sessionAffinity : bool) : Router (Logger := unit) (Discoverer := string) :=
  {| registry := r; discoverers := []; httpClient := {| Timeout := 5 * Minute |};
     logger := (); defaultBackend := defaultBackend;
     healthCheckInterval := 30 * Second; sessionAffinity := sessionAffinity |}.
Definition affine : Router := router_over fleet "" true.
Definition with_default : Router := router_over fleet "backend-b" false.

(** An endpoint whose backends answer with their id, or stream one
    chunk. *)
Definition chat_config : handlerConfig (Req := Request (Fields := list string)) (Resp := string) :=
  {| getModel := Backends.Model;
     execute := λ backend _, inr ("answer of " ++ ID backend)%string;
     stream := Some (λ _ _, inr [data_event "{x:1}"; done_event]);
     isStreaming := Some Stream;
     errorContext := "chat completion" |}.

(** A request for a model nobody serves. *)
Definition request_unknown : Request (Fields := list string) :=
  {| Backends.Model := "no-such-model"; Stream := false; Other := [] |}.

(** A stream of one chunk that ends with an error. *)
Definition chunk_then_error : list StreamEvent :=
  [data_event "{x:1}"; err_event "connection reset by peer"].

(** A client connection whose second write fails. *)
Definition flaky_client : ResponseWriter :=
  {| canFlush := true; Header := ∅; status := None; body := [];
     faults := [false; true] |}.

(** An upstream that answers a request with 200. *)
Definition models_response : Response :=
  {| StatusCode := 200; Status := "200 OK"; Body := "{}"; BodyEnd := EOF |}.

End Fixtures.

(** * Registry invariants *)

Section RegistryInvariants.

Import Registry.

Lemma addModelMapping_backends modelID backendID r :
  backends (addModelMapping modelID backendID r) = backends r.
Proof. unfold addModelMapping. by case_match. Qed.

Lemma existsb_bid (backendID : string) (bs : list string) :
  existsb (λ bid, bool_decide (bid = backendID)) bs = true ↔ backendID ∈ bs.
Proof.
  rewrite existsb_exists. split.
  - intros (x & Hin & Heq). apply bool_decide_eq_true in Heq as <-.
    by apply list_elem_of_In.
  - intros Hin. exists backendID. split; [by apply list_elem_of_In|].
    by apply bool_decide_eq_true.
Qed.

(** What [addModelMapping] leaves in the index. *)
Lemma addModelMapping_lookup modelID backendID r m :
  models (addModelMapping modelID backendID r) !! m =
  if decide (m = modelID) then
    let bs := default [] (models r !! modelID) in
    if decide (backendID ∈ bs) then models r !! modelID else Some (bs ++ [backendID])
  else models r !! m.
Proof.
  unfold addModelMapping.
  destruct (existsb _ _) eqn:He.
  - apply existsb_bid in He. repeat case_decide; subst; done.
  - assert (backendID ∉ default [] (models r !! modelID)) as Hn.
    { intros Hin%existsb_bid. congruence. }
    simpl. repeat case_decide; subst; try done.
    + by rewrite lookup_insert_eq.
    + by rewrite lookup_insert_ne.
Qed.

Lemma removeMappings_lookup id ms m l :
  removeMappings id ms !! m = Some l ↔
  ∃ l0, ms !! m = Some l0
        ∧ l = List.filter (λ bid, negb (bool_decide (bid = id))) l0
        ∧ l ≠ [].
Proof.
  unfold removeMappings. rewrite lookup_omap_Some. split.
  - intros (l0 & Hf & Hl0). exists l0. split; [done|].
    simpl in Hf. destruct (List.filter _ l0) eqn:E; [done|].
    by simplify_eq.
  - intros (l0 & Hl0 & -> & Hne). exists l0. split; [|done].
    simpl. by destruct (List.filter _ l0).
Qed.

Lemma elem_of_filter_ne (id bid : string) (l : list string) :
  bid ∈ List.filter (λ bid, negb (bool_decide (bid = id))) l ↔ bid ∈ l ∧ bid ≠ id.
Proof.
  rewrite !list_elem_of_In, filter_In, negb_true_iff, bool_decide_eq_false. done.
Qed.

Lemma NoDup_filter_ne (id : string) (l : list string) :
  NoDup l → NoDup (List.filter (λ bid, negb (bool_decide (bid = id))) l).
Proof.
  induction 1 as [|x l Hx Hl IH]; simpl; [constructor|].
  destruct (negb _); [|done].
  constructor; [|done]. rewrite elem_of_filter_ne. tauto.
Qed.

(** ** [well_formed] is an invariant *)

Lemma well_formed_empty : well_formed NewBackendRegistry.
Proof.
  split; [|split].
  - intros m l bid Hm. simpl in Hm. by rewrite lookup_empty in Hm.
  - intros k b Hk. simpl in Hk. by rewrite lookup_empty in Hk.
  - intros m l Hm. simpl in Hm. by rewrite lookup_empty in Hm.
Qed.

Lemma well_formed_addModelMapping modelID backendID r :
  is_Some (backends r !! backendID) →
  well_formed r → well_formed (addModelMapping modelID backendID r).
Proof.
  intros Hb (Hs & Hk & Hd). split; [|split].
  - intros m l bid. rewrite addModelMapping_lookup, addModelMapping_backends.
    case_decide as Hm; [subst m|by apply Hs].
    simpl. case_decide as Hin; [by apply Hs|].
    intros [= <-] [Hbid| ->%list_elem_of_singleton]%elem_of_app; [|done].
    destruct (models r !! modelID) as [l0|] eqn:E; simpl in *.
    + by eapply Hs.
    + by apply elem_of_nil in Hbid.
  - intros k b. rewrite addModelMapping_backends. apply Hk.
  - intros m l. rewrite addModelMapping_lookup.
    case_decide as Hm; [subst m|by apply Hd].
    simpl. case_decide as Hin; [by apply Hd|].
    intros [= <-]. split; [|by destruct (default _ _)].
    apply NoDup_app. split_and!.
    + destruct (models r !! modelID) as [l0|] eqn:E; simpl.
      * by apply (Hd modelID).
      * constructor.
    + intros x Hx ->%list_elem_of_singleton. done.
    + apply NoDup_singleton.
Qed.

Lemma well_formed_index backendID (ms : list Model) r :
  is_Some (backends r !! backendID) →
  well_formed r →
  well_formed (foldl (λ r' model, addModelMapping (Model_ID model) backendID r') r ms).
Proof.
  revert r. induction ms as [|model ms IH]; intros r Hb Hwf; simpl; [done|].
  apply IH.
  - by rewrite addModelMapping_backends.
  - by apply well_formed_addModelMapping.
Qed.

Lemma well_formed_upsert b r :
  well_formed r →
  well_formed {| backends := <[ID b := b]> (backends r); models := models r |}.
Proof.
  intros (Hs & Hk & Hd). split; [|split].
  - intros m l bid Hm Hbid. simpl in *.
    destruct (decide (bid = ID b)) as [->|Hne].
    + rewrite lookup_insert_eq. eauto.
    + rewrite lookup_insert_ne by done. by eapply Hs.
  - intros k b'. simpl. destruct (decide (k = ID b)) as [->|Hne].
    + rewrite lookup_insert_eq. by intros [= <-].
    + rewrite lookup_insert_ne by done. apply Hk.
  - exact Hd.
Qed.

Lemma well_formed_Register b fetch r :
  well_formed r → well_formed (Register b fetch r).
Proof.
  intros Hwf. unfold Register. destruct fetch as [err|ms].
  - by apply well_formed_upsert.
  - apply well_formed_index; [|by apply well_formed_upsert].
    simpl. rewrite lookup_insert_eq. eauto.
Qed.

Lemma well_formed_removeMappings id bs r :
  (∀ bid, bid ≠ id → is_Some (backends r !! bid) → is_Some (bs !! bid)) →
  (∀ k b, bs !! k = Some b → ID b = k) →
  well_formed r →
  well_formed {| backends := bs; models := removeMappings id (models r) |}.
Proof.
  intros Hbs Hkey (Hs & Hk & Hd). split; [|split].
  - intros m l bid. simpl.
    intros (l0 & Hl0 & -> & _)%removeMappings_lookup [Hin Hne]%elem_of_filter_ne.
    apply Hbs; [done|]. by eapply Hs.
  - exact Hkey.
  - intros m l. simpl. intros (l0 & Hl0 & -> & Hne)%removeMappings_lookup.
    split; [|done]. apply NoDup_filter_ne. by apply (Hd m).
Qed.

Lemma well_formed_Unregister id r :
  well_formed r → well_formed (Unregister id r).
Proof.
  intros Hwf. apply well_formed_removeMappings; [| |done].
  - intros bid Hne. by rewrite lookup_delete_ne.
  - intros k b Hkb. apply lookup_delete_Some in Hkb as [_ Hkb].
    by apply Hwf.
Qed.

Lemma well_formed_RefreshModels backendID fetch r :
  well_formed r → well_formed (fst (RefreshModels backendID fetch r)).
Proof.
  intros Hwf. unfold RefreshModels.
  destruct (backends r !! backendID) as [b|] eqn:Hb; [|done].
  assert (well_formed {| backends := backends r;
                         models := removeMappings backendID (models r) |}) as Hwf'.
  { apply well_formed_removeMappings; [done| |done]. apply Hwf. }
  destruct fetch as [err|ms]; simpl; [done|].
  apply well_formed_index; [|done]. simpl. rewrite Hb. eauto.
Qed.

Lemma well_formed_step r o : well_formed r → well_formed (step r o).
Proof.
  destruct o; simpl.
  - apply well_formed_Register.
  - apply well_formed_Unregister.
  - apply well_formed_RefreshModels.
Qed.

Lemma well_formed_run ops : well_formed (run ops).
Proof.
  unfold run. generalize well_formed_empty.
  generalize NewBackendRegistry as r.
  induction ops as [|o ops IH]; intros r Hwf; simpl; [done|].
  apply IH. by apply well_formed_step.
Qed.

(** C4.  After any sequence of [Register], [Unregister] and
    [RefreshModels] on an empty registry, every backend id of every
    model's sequence is a key of the backend table. *)
Theorem registry_soundness ops : sound (run ops).
Proof.
  cut (well_formed (run ops)); [by intros [Hsound _]|].
  unfold run. induction ops as [|o ops IH] using rev_ind.
  - apply well_formed_empty.
  - rewrite foldl_snoc. by apply well_formed_step.
Qed.

End RegistryInvariants.

(** * [sort_Slice] meets the contract of [sort.Slice] *)

Section InsertionSort.

Context {A : Type} (less : A → A → bool).

(** [less] is a strict order whose complement is transitive, as the
    comparison of keys by [<] is. *)
Hypothesis less_asym : ∀ a b, less a b = true → less b a = false.
Hypothesis less_negtrans :
  ∀ a b c, less b a = false → less c b = false → less c a = false.

Lemma insert_by_perm x l : insert_by less x l ≡ₚ x :: l.
Proof.
  induction l as [|y l IH]; simpl; [done|].
  destruct (less y x); [|done].
  rewrite IH. apply Permutation_swap.
Qed.

Lemma sort_Slice_perm l : sort_Slice less l ≡ₚ l.
Proof.
  induction l as [|x l IH]; simpl; [done|].
  fold (sort_Slice less l). by rewrite insert_by_perm, IH.
Qed.

Lemma sort_Slice_length l : length (sort_Slice less l) = length l.
Proof. by rewrite sort_Slice_perm. Qed.

Lemma insert_by_sorted x l : sorted_by less l → sorted_by less (insert_by less x l).
Proof.
  unfold sorted_by. induction 1 as [|y l Hl IH Hy]; simpl.
  - repeat constructor.
  - destruct (less y x) eqn:Hyx.
    + constructor; [done|].
      rewrite insert_by_perm. constructor; [by apply less_asym|done].
    + constructor; [by constructor|].
      constructor; [done|].
      eapply Forall_impl; [exact Hy|]. intros z Hz. simpl in Hz.
      by eapply less_negtrans.
Qed.

Lemma sort_Slice_sorted l : sorted_by less (sort_Slice less l).
Proof.
  induction l as [|x l IH]; simpl; [constructor|].
  by apply insert_by_sorted.
Qed.

Lemma insert_by_front x l :
  Forall (λ z, less z x = false) l → insert_by less x l = x :: l.
Proof. destruct 1 as [|z l Hz _]; simpl; [done|]. by rewrite Hz. Qed.

(** Filtering commutes with insertion into a sorted list. *)
Lemma filter_insert_by (P : A → bool) x l :
  sorted_by less l →
  List.filter P (insert_by less x l) =
  if P x then insert_by less x (List.filter P l) else List.filter P l.
Proof.
  unfold sorted_by. induction 1 as [|y l Hl IH Hy].
  - simpl. by destruct (P x).
  - cbn [insert_by]. destruct (less y x) eqn:Hyx.
    + cbn [List.filter]. rewrite IH.
      destruct (P y), (P x); simpl; by rewrite ?Hyx.
    + change (List.filter P (x :: y :: l))
        with (if P x then x :: List.filter P (y :: l) else List.filter P (y :: l)).
      destruct (P x) eqn:HPx; [|done].
      symmetry. apply insert_by_front.
      apply Forall_forall. intros z [Hz _]%list_elem_of_In%filter_In.
      apply list_elem_of_In, elem_of_cons in Hz as [->|Hz]; [done|].
      eapply less_negtrans; [exact Hyx|].
      by eapply (proj1 (Forall_forall _ _) Hy).
Qed.

(** Sorting the filtered slice is filtering the sorted slice. *)
Lemma filter_sort_Slice (P : A → bool) l :
  sort_Slice less (List.filter P l) = List.filter P (sort_Slice less l).
Proof.
  induction l as [|x l IH]; simpl; [done|].
  fold (sort_Slice less l).
  rewrite filter_insert_by by apply sort_Slice_sorted.
  destruct (P x); simpl; by rewrite <- IH.
Qed.

End InsertionSort.

(** * The lookups *)

Section Lookups.

Import Registry Scenario.

(** ** Comparison of backend ids *)

Lemma ltb_false_leb (s1 s2 : string) :
  String.ltb s1 s2 = false ↔ String.le s2 s1.
Proof.
  unfold String.le, String.ltb, String.leb.
  rewrite (String.compare_antisym s2 s1).
  destruct (String.compare s1 s2); simpl; split; try done; intros [].
Qed.

Lemma lessID_asym a b : lessID a b = true → lessID b a = false.
Proof.
  unfold lessID, String.ltb. rewrite (String.compare_antisym (ID b) (ID a)).
  by destruct (String.compare (ID a) (ID b)).
Qed.

Lemma lessID_negtrans a b c :
  lessID b a = false → lessID c b = false → lessID c a = false.
Proof.
  unfold lessID. rewrite !ltb_false_leb. intros H1 H2. by etrans.
Qed.

Lemma sort_Slice_ascending l : ascending (sort_Slice lessID l).
Proof. apply sort_Slice_sorted; [apply lessID_asym|apply lessID_negtrans]. Qed.

(** ** The collecting loops *)

Lemma firstHealthy_find bs backendIDs :
  firstHealthy bs backendIDs = List.find IsHealthy (omap (λ bid, bs !! bid) backendIDs).
Proof.
  induction backendIDs as [|bid rest IH]; simpl; [done|].
  destruct (bs !! bid) as [backend|]; simpl; [|done].
  by destruct (IsHealthy backend).
Qed.

Lemma collect_spec bs backendIDs :
  collect bs backendIDs =
  (omap (λ bid, bs !! bid) backendIDs,
   List.filter IsHealthy (omap (λ bid, bs !! bid) backendIDs)).
Proof.
  induction backendIDs as [|bid rest IH]; simpl; [done|].
  rewrite IH. destruct (bs !! bid) as [backend|]; simpl; [|done].
  by destruct (IsHealthy backend).
Qed.

Lemma length_omap_le {X Y : Type} (f : X → option Y) (l : list X) :
  (length (omap f l) ≤ length l)%nat.
Proof. induction l as [|x l IH]; csimpl; [lia|]. destruct (f x); csimpl; lia. Qed.

(** ** Indexing by the session hash *)

Lemma Sum32_range s : 0 ≤ fnv.Sum32 s < 2 ^ 32.
Proof.
  unfold fnv.Sum32.
  assert (0 ≤ fnv.offset32 < 2 ^ 32) as H0 by (unfold fnv.offset32; lia).
  revert H0. generalize fnv.offset32 as h.
  induction (list_ascii_of_string s) as [|c l IH]; intros h Hh; simpl; [done|].
  apply IH. unfold fnv.write_byte, uint32. apply Z.mod_pos_bound. lia.
Qed.

Lemma hashSessionToIndex_ok s (n : nat) :
  (0 < n)%nat → Z.of_nat n < 2 ^ 32 →
  hashSessionToIndex s (Z.of_nat n) = Ret (fnv.Sum32 s mod Z.of_nat n).
Proof.
  intros Hn Hlt. unfold hashSessionToIndex, uint32.
  rewrite Z.mod_small by lia.
  destruct (Z.eqb_spec (Z.of_nat n) 0); [lia|done].
Qed.

Lemma hashSessionToIndex_len {X : Type} s (l : list X) :
  l ≠ [] → len l < 2 ^ 32 →
  hashSessionToIndex s (len l) = Ret (fnv.Sum32 s mod len l).
Proof.
  intros Hne Hlt. apply hashSessionToIndex_ok; [|done].
  destruct l; simpl; [done|lia].
Qed.

Lemma slice_at_nth {X : Type} (l : list X) (i : Z) (d : X) :
  0 ≤ i < len l → slice_at l i = Ret (nth (Z.to_nat i) l d).
Proof.
  unfold len. intros Hi. unfold slice_at.
  destruct (Z.ltb_spec i 0); [lia|].
  destruct (l !! Z.to_nat i) as [x|] eqn:E.
  - f_equal. symmetry. by apply nth_lookup_Some.
  - apply lookup_ge_None in E. lia.
Qed.

Lemma len_filter_le {X : Type} (P : X → bool) (l : list X) :
  len (List.filter P l) ≤ len l.
Proof.
  unfold len. induction l as [|x l IH]; simpl; [lia|].
  destruct (P x); simpl length; lia.
Qed.

Lemma len_nonempty {X : Type} (x : X) (l : list X) : 0 < len (x :: l).
Proof. unfold len. simpl length. lia. Qed.


(** C5.  In a sound registry [LookupByModel] returns the first healthy
    backend of the model's sequence, in insertion order; if none is
    healthy, the first backend of the sequence; and no backend when the
    model is absent or maps to an empty sequence. *)
Theorem LookupByModel_first_healthy r modelID :
  sound r → LookupByModel r modelID = spec_LookupByModel r modelID.
Proof.
  intros Hsound. unfold LookupByModel, spec_LookupByModel, mapped.
  destruct (models r !! modelID) as [[|bid0 rest]|] eqn:Hm; [done| |done].
  cbn [default id]. rewrite firstHealthy_find.
  destruct (List.find _ _); [done|].
  destruct (Hsound modelID (bid0 :: rest) bid0 Hm) as [b Hb]; [by left|].
  simpl. by rewrite Hb.
Qed.

(** C6.  With the empty session id, [LookupByModelWithSession] finds a
    backend exactly when [LookupByModel] does, returns the same
    backend, and never sets [SessionBroken]. *)
Theorem LookupByModelWithSession_no_session r modelID :
  LookupByModelWithSession r modelID EmptyString
  = Ret ((λ backend, {| Result_Backend := backend; SessionBroken := false |})
           <$> LookupByModel r modelID).
Proof.
  unfold LookupByModelWithSession, LookupByModel.
  destruct (models r !! modelID) as [[|bid0 rest]|]; [done| |done].
  cbn [String.eqb].
  destruct (firstHealthy _ _); [done|].
  by destruct (backends r !! bid0).
Qed.

(** ** The sorted slice does not depend on the sorting algorithm *)

Lemma mapped_ids (bs : gmap string Backend) (backendIDs : list string) x :
  (∀ k b, bs !! k = Some b → ID b = k) →
  x ∈ ID <$> omap (λ bid, bs !! bid) backendIDs → x ∈ backendIDs.
Proof.
  intros Hk. induction backendIDs as [|bid rest IH]; csimpl; [done|].
  destruct (bs !! bid) as [b|] eqn:Hb; csimpl.
  - intros [->|Hx]%elem_of_cons.
    + rewrite (Hk _ _ Hb). by left.
    + right. by apply IH.
  - intros Hx. right. by apply IH.
Qed.

Lemma mapped_NoDup_ID r modelID :
  keyed r → deduplicated r → NoDup (ID <$> mapped r modelID).
Proof.
  intros Hk Hd. unfold mapped.
  destruct (models r !! modelID) as [backendIDs|] eqn:Hm; [|constructor].
  destruct (Hd _ _ Hm) as [Hnd _]. cbn [default id]. clear Hm.
  induction Hnd as [|bid rest Hbid Hrest IH]; csimpl; [constructor|].
  destruct (backends r !! bid) as [b|] eqn:Hb; csimpl; [|done].
  constructor; [|done].
  intros Hin%(mapped_ids _ _ _ Hk). by rewrite (Hk _ _ Hb) in Hin.
Qed.

Lemma NoDup_fmap_inj {X Y : Type} (f : X → Y) (l : list X) x y :
  NoDup (f <$> l) → x ∈ l → y ∈ l → f x = f y → x = y.
Proof.
  induction l as [|z l IH]; csimpl; [by intros _ ?%elem_of_nil|].
  intros [Hz Hl]%NoDup_cons [->|Hx]%elem_of_cons [->|Hy]%elem_of_cons Hf.
  - done.
  - destruct Hz. rewrite Hf. by apply list_elem_of_fmap_2.
  - destruct Hz. rewrite <- Hf. by apply list_elem_of_fmap_2.
  - by apply IH.
Qed.

(** In a well-formed registry, any ascending permutation of the
    backends of a model is the slice [sort_Slice] computes. *)
Lemma sort_Slice_unique r modelID (l : list Backend) :
  well_formed r →
  l ≡ₚ mapped r modelID → ascending l → l = spec_all r modelID.
Proof.
  intros (_ & Hk & Hd) Hperm Hasc. unfold spec_all.
  pose proof (mapped_NoDup_ID r modelID Hk Hd) as Hnd.
  apply (StronglySorted_unique_strong (λ a b, lessID b a = false)).
  - intros x1 x2 Hx1 Hx2 H12 H21.
    rewrite Hperm in Hx1. rewrite sort_Slice_perm in Hx2.
    apply (NoDup_fmap_inj ID (mapped r modelID)); [done..|].
    unfold lessID in *. apply ltb_false_leb in H12, H21.
    by apply (anti_symm String.le).
  - done.
  - apply sort_Slice_ascending.
  - by rewrite sort_Slice_perm.
Qed.

(** ** The hash and the lookups on the fleet of three *)

Example Sum32_empty : fnv.Sum32 "" = 0x811c9dc5.
Proof. reflexivity. Qed.
Example Sum32_a : fnv.Sum32 "a" = 0xe40c292c.
Proof. reflexivity. Qed.
Example Sum32_foobar : fnv.Sum32 "foobar" = 0xbf9cf968.
Proof. reflexivity. Qed.

(** The conversion [uint32(count)] wraps: a count of [2^32] divides by
    zero. *)
Example hashSessionToIndex_wraps : hashSessionToIndex "session-123" (2 ^ 32) = Panic.
Proof. reflexivity. Qed.


Example fleet_fallback :
  LookupByModelWithSession fleet "test-model" "session-xyz"
  = Ret (Some {| Result_Backend := newMockBackend "backend-c" true;
                 SessionBroken := true |}).
Proof. vm_compute. reflexivity. Qed.

(** C5 at the fleet of three. *)
Lemma LookupByModel_first_healthy_witness :
  LookupByModel fleet "test-model" = spec_LookupByModel fleet "test-model".
Proof. apply LookupByModel_first_healthy. apply well_formed_run. Defined.

End Lookups.

(** * Registering an id twice *)

Section Reregistration.

Import Registry Scenario.

Lemma removeMappings_gone id ms m l :
  removeMappings id ms !! m = Some l → id ∉ l.
Proof.
  intros (l0 & _ & -> & _)%removeMappings_lookup [_ Hne]%elem_of_filter_ne. done.
Qed.

(** Indexing the models of a backend maps it only to those models and
    to the models it was mapped to before. *)
Lemma index_adds_only backendID (ms : list Model) r m l :
  models (foldl (λ r' model, addModelMapping (Model_ID model) backendID r') r ms) !! m
    = Some l →
  backendID ∈ l →
  m ∈ Model_ID <$> ms ∨ ∃ l0, models r !! m = Some l0 ∧ backendID ∈ l0.
Proof.
  revert r. induction ms as [|model ms IH]; intros r Hl Hin; simpl in *.
  - right. eauto.
  - destruct (IH _ Hl Hin) as [Hm|(l0 & Hl0 & Hin0)]; csimpl.
    { left. by right. }
    rewrite addModelMapping_lookup in Hl0.
    case_decide as Hm; [left; rewrite Hm; by left|]. right. eauto.
Qed.

(** [RefreshModels] prunes first: afterwards the backend is mapped
    only to the models of the list just fetched. *)
Lemma RefreshModels_prunes backendID (ms : list Model) r m l :
  is_Some (backends r !! backendID) →
  models (fst (RefreshModels backendID (inr ms) r)) !! m = Some l →
  backendID ∈ l →
  m ∈ Model_ID <$> ms.
Proof.
  intros [b Hb] Hl Hin. unfold RefreshModels in Hl. rewrite Hb in Hl. simpl in Hl.
  destruct (index_adds_only _ _ _ _ _ Hl Hin) as [|(l0 & Hl0 & Hin0)]; [done|].
  simpl in Hl0. by apply removeMappings_gone in Hl0.
Qed.

(** C3.  Registering a second handle under the id of a backend that
    served [m1] and [m2], the new one serving only [m1], replaces the
    handle and leaves [m2] mapped to the id: the old mappings are not
    pruned, and a lookup of [m2] returns the new handle. *)
Theorem Register_twice_keeps_stale_mapping :
  backends registered_twice !! "backend-a" = Some new_handle
  ∧ models registered_twice !! "m1" = Some ["backend-a"]
  ∧ models registered_twice !! "m2" = Some ["backend-a"]
  ∧ LookupByModel registered_twice "m2" = Some new_handle.
Proof. vm_compute. done. Qed.

End Reregistration.

(** * The stream producer *)

Section Producer.

Import Backends Scenario.

Lemma terminal_event_cons data payloads ending :
  is_DONE data = false →
  terminal_event (data :: payloads) ending = terminal_event payloads ending.
Proof. intros H. unfold terminal_event. simpl. by rewrite H. Qed.

(** The producer sends the data events of the payloads before
    [[DONE]] and then the terminal event. *)
Lemma produce_spec ctx i lines rest ending :
  produce ctx i lines rest ending
  = let '(read, ending') := readable ctx i lines ending in
    (data_event <$> takeWhile (λ d, negb (is_DONE d)) (omap payload read))
      ++ [terminal_event (omap payload read) ending'].
Proof.
  revert i.
  induction lines as [|line lines IH]; intros i; cbn [produce readable];
    destruct (ctx_Done ctx i); try done.
  - by destruct ending.
  - specialize (IH (S i)).
    destruct (readable ctx (S i) lines ending) as [read ending'].
    change (omap payload (line :: read))
      with (match payload line with
            | Some y => y :: omap payload read
            | None => omap payload read
            end).
    destruct ((strings.TrimSpace line =? "")%string
              || negb (strings.HasPrefix (strings.TrimSpace line) "data: "))
      eqn:Hskip.
    { assert (payload line = None) as -> by (unfold payload; by rewrite Hskip).
      apply IH. }
    assert (payload line
            = Some (strings.TrimPrefix (strings.TrimSpace line) "data: ")) as ->
      by (unfold payload; by rewrite Hskip).
    fold (is_DONE (strings.TrimPrefix (strings.TrimSpace line) "data: ")).
    destruct (is_DONE _) eqn:Hd.
    + cbn [takeWhile negb fmap list_fmap app]. rewrite Hd. cbn [negb].
      unfold terminal_event. cbn [existsb]. rewrite Hd. cbn [orb].
      apply String.eqb_eq in Hd. by rewrite Hd.
    + cbn [takeWhile]. rewrite Hd. cbn [negb].
      rewrite terminal_event_cons by done. by rewrite IH.
Qed.

(** A context that is never cancelled hides nothing of the body. *)
Lemma readable_background ctx i lines ending :
  (∀ j, ctx_Done ctx j = false) → readable ctx i lines ending = (lines, ending).
Proof.
  intros Hctx. revert i.
  induction lines as [|line lines IH]; intros i; cbn [readable]; rewrite Hctx; [done|].
  by rewrite IH.
Qed.

(** Whatever the context does, the channel carries data events and
    then exactly one terminal event. *)
Lemma produce_one_terminal ctx i lines rest ending :
  ∃ pre t,
    produce ctx i lines rest ending = pre ++ [t]
    ∧ Forall (λ e, Done e = false ∧ Err e = None ∧ Data e ≠ "[DONE]"%string) pre
    ∧ Done t = true.
Proof.
  revert i. induction lines as [|line lines IH]; intros i; simpl.
  - destruct (ctx_Done ctx i); [by eexists [], _|].
    destruct ending; by eexists [], _.
  - destruct (ctx_Done ctx i); [by eexists [], _|].
    destruct (_ || _); [apply IH|].
    destruct (String.eqb_spec
                (strings.TrimPrefix (strings.TrimSpace line) "data: ") "[DONE]")
      as [Hd|Hd]; [by eexists [], _|].
    destruct (IH (S i)) as (pre & t & -> & Hpre & Ht).
    eexists (_ :: pre), t. split; [done|]. split; [|done].
    constructor; [|done]. done.
Qed.

Lemma events_of_one_terminal ctx resp :
  ∃ pre t,
    events_of ctx resp = pre ++ [t]
    ∧ Forall (λ e, Done e = false ∧ Err e = None ∧ Data e ≠ "[DONE]"%string) pre
    ∧ Done t = true.
Proof.
  unfold events_of. destruct (strings.readStrings _ _) as [lines rest].
  apply produce_one_terminal.
Qed.

(** C7, as amended.  For every upstream body the channel carries the
    data events and is closed after exactly one terminal event,
    determined by the cause: a newline-terminated line that trims to
    [data: [DONE]] gives [{data: "[DONE]", done: true}], EOF before it
    gives [{done: true}] with no data, another read error (a context
    found cancelled before a read counts as one) gives
    [{err, done: true}]; lines that, once their surrounding white space
    is trimmed, are blank or do not begin with [data: ] produce no
    event. *)
Theorem streamRequest_terminal_event ctx resp :
  events_of ctx resp = spec_events ctx resp.
Proof.
  unfold events_of, spec_events.
  destruct (strings.readStrings _ _) as [lines rest]. cbn [fst].
  apply produce_spec.
Qed.

(** C7 fails as stated: the line [  data: x] does not begin with
    [data: ], and the producer sends a data event for it. *)
Lemma indented_data_line_is_relayed :
  strings.HasPrefix indented_line "data: " = false
  ∧ events_of background indented_chunk = [data_event "x"; eof_event].
Proof. vm_compute. done. Qed.

(** The chunk and the clean end of [one_chunk_then_EOF]. *)
Example one_chunk_then_EOF_events :
  spec_events background one_chunk_then_EOF = [data_event "{x:1}"; eof_event].
Proof. vm_compute. done. Qed.

(** The lines the producer reads are trimmed, and bytes without a final
    newline come with EOF and yield no event of their own. *)
Example unterminated_DONE_is_EOF :
  events_of background (ok_response "data: [DONE]" EOF) = [eof_event].
Proof. vm_compute. done. Qed.

(** C8, as amended.  When the request was sent and answered, the call
    returns an error, and opens no channel, exactly when the status of
    the initial response is not 200; a 200 response opens the channel. *)
Theorem streamRequest_status ctx resp :
  streamRequest ctx None (inr resp)
  = if decide (StatusCode resp = 200) then inr (events_of ctx resp)
    else inl ("stream request failed: " ++ Status resp ++ " - " ++ Body resp)%string.
Proof.
  unfold streamRequest, StatusOK.
  destruct (Z.eqb_spec (StatusCode resp) 200); by case_decide.
Qed.

(** C8 fails as stated: 204 is a 2xx status, and the call returns an
    error instead of a channel. *)
Lemma no_content_is_refused :
  200 ≤ StatusCode no_content < 300
  ∧ streamRequest background None (inr no_content)
    = inl "stream request failed: 204 No Content - "%string.
Proof. split; [vm_compute; done|reflexivity]. Qed.

End Producer.

(** * The relay *)

Section Relay.

Import Streaming Backends Router Scenario.

Lemma data_line_inj d1 d2 : data_line d1 = data_line d2 → d1 = d2.
Proof.
  unfold data_line. intros H. apply (inj (String.app "data: ")) in H.
  revert d2 H. induction d1 as [|c d1 IH]; intros [|c2 d2] H; simpl in *.
  - done.
  - injection H as Hc H. destruct d2 as [|c3 d2]; simpl in H.
    + done.
    + injection H as _ H. by destruct d2.
  - injection H as Hc H. destruct d1 as [|c3 d1]; simpl in H.
    + done.
    + injection H as _ H. by destruct d1.
  - injection H as -> H. f_equal. by apply IH.
Qed.

Lemma terminators_write item w :
  terminators (fst (write item w))
  = (terminators w + if snd (write item w) then 0 else
                       if is_terminator item then 1 else 0)%nat.
Proof.
  unfold terminators, write.
  destruct (faults w) as [|[] rest]; cbn [fst snd body]; [|lia|];
    rewrite List.filter_app, length_app; cbn [List.filter];
    destruct (is_terminator item); cbn [length]; lia.
Qed.

Lemma terminators_WriteData data w :
  data ≠ "[DONE]"%string →
  terminators (fst (WriteData data w)) = terminators w.
Proof.
  intros Hd. unfold WriteData. rewrite terminators_write.
  destruct (snd _); [lia|]. cbn [is_terminator].
  destruct (String.eqb_spec (data_line data) (data_line "[DONE]")) as [H|_]; [|lia].
  by apply data_line_inj in H.
Qed.

(** The loop of [handleStream] leaves with [streamEnded] set exactly
    when it has called [WriteDone], which it does at most once and
    last. *)
Lemma handleStream_loop_done events sse :
  relayable events →
  ∃ sse', terminators sse' = terminators sse ∧
    (handleStream_loop events sse = (sse', false)
     ∨ handleStream_loop events sse = (fst (WriteDone sse'), true)).
Proof.
  intros Hev. revert sse.
  induction Hev as [|event events Hevent _ IH]; intros sse; simpl.
  - exists sse. by split; [|left].
  - destruct (Err event) eqn:Herr; [exists sse; by split; [|left]|].
    destruct (Done event) eqn:Hdone; [exists sse; by split; [|right]|].
    destruct (String.eqb_spec (Data event) "") as [|_]; simpl; [apply IH|].
    pose proof (terminators_WriteData (Data event) sse (Hevent eq_refl eq_refl)) as Ht.
    destruct (WriteData (Data event) sse) as [sse1 failed] eqn:Hw. simpl in Ht.
    destruct failed.
    + exists sse1. by split; [|left].
    + destruct (IH sse1) as (sse' & Ht' & Hloop).
      exists sse'. split; [congruence|done].
Qed.

Lemma terminators_WriteHeaders w : terminators (WriteHeaders w) = terminators w.
Proof. done. Qed.

(** [handleStream] on an opened stream ends with one call of
    [WriteDone], and wrote no terminator before it. *)
Lemma handleStream_writes_done_once w events :
  canFlush w = true → relayable events →
  ∃ sse, handleStream w (inr events) = fst (WriteDone sse)
         ∧ terminators sse = terminators w.
Proof.
  intros Hflush Hev. unfold handleStream, NewWriter. rewrite Hflush.
  destruct (handleStream_loop_done events (WriteHeaders w) Hev)
    as (sse & Ht & [-> | ->]); simpl; by exists sse.
Qed.

(** On a connection whose writes succeed the client receives exactly
    one terminator more. *)
Lemma handleStream_one_terminator w events :
  canFlush w = true → faults w = [] → relayable events →
  terminators (handleStream w (inr events)) = S (terminators w).
Proof.
  intros Hflush Hfaults Hev. unfold handleStream, NewWriter. rewrite Hflush.
  assert (∀ events sse, relayable events → faults sse = [] →
            let '(sse', ended) := handleStream_loop events sse in
            faults sse' = [] ∧
            terminators sse' = (terminators sse + if ended then 1 else 0)%nat) as Hloop.
  { clear. intros events sse Hev. revert sse.
    induction Hev as [|event events Hevent _ IH]; intros sse Hf; simpl.
    - split; [done|lia].
    - destruct (Err event) eqn:Herr; [split; [done|lia]|].
      destruct (Done event) eqn:Hdone.
      { unfold WriteDone, WriteData, write, terminators. rewrite Hf. simpl.
        split; [done|]. rewrite List.filter_app, length_app. simpl. lia. }
      destruct (String.eqb_spec (Data event) "") as [|_]; simpl; [by apply IH|].
      pose proof (terminators_WriteData (Data event) sse (Hevent eq_refl eq_refl)) as Ht.
      unfold WriteData, write in *. rewrite Hf in *. simpl in *.
      specialize (IH _ (eq_refl : faults {| canFlush := canFlush sse;
          Header := Header sse; status := status sse;
          body := body sse ++ [Text (data_line (Data event))];
          faults := [] |} = [])).
      destruct (handleStream_loop events _) as [sse' ended].
      destruct IH as [? IH]. split; [done|]. rewrite IH.
      unfold terminators in *. simpl in *. lia. }
  specialize (Hloop events (WriteHeaders w) Hev Hfaults).
  destruct (handleStream_loop events (WriteHeaders w)) as [sse ended].
  destruct Hloop as [Hf Ht]. rewrite terminators_WriteHeaders in Ht.
  destruct ended; simpl; [lia|].
  unfold WriteDone, WriteData, write, terminators in *. rewrite Hf. simpl.
  rewrite List.filter_app, length_app. simpl. lia.
Qed.

Lemma events_of_relayable ctx resp : relayable (events_of ctx resp).
Proof.
  destruct (events_of_one_terminal ctx resp) as (pre & t & -> & Hpre & Ht).
  apply Forall_app. split.
  - eapply Forall_impl; [exact Hpre|]. by intros e (_ & _ & ?) _ _.
  - constructor; [|done]. intros Hd. congruence.
Qed.

(** SSE termination for [handleStream]: whatever the upstream body and
    the context, a client whose writes succeed receives exactly one
    terminator, on every stream that is opened. *)
Lemma relay_emits_one_terminator w ctx resp events :
  canFlush w = true → faults w = [] →
  streamRequest ctx None (inr resp) = inr events →
  terminators (handleStream w (inr events)) = S (terminators w).
Proof.
  intros Hflush Hfaults Hstream. apply handleStream_one_terminator; [done..|].
  unfold streamRequest in Hstream. destruct (negb _); [done|].
  injection Hstream as <-. apply events_of_relayable.
Qed.

(** C2.  An upstream sends one chunk and closes without [[DONE]], or
    fails after the chunk, or the channel is closed bare.  The relay
    loop of [handleChatCompletionsStream] writes the chunk and no
    terminator; [handleStream] writes one terminator each time. *)
Theorem legacy_relay_omits_terminator :
  (body (handleChatCompletionsStream client
           (streamRequest background None (inr one_chunk_then_EOF)))
   = [Text (data_line "{x:1}")]
   ∧ terminators (handleChatCompletionsStream client
                    (streamRequest background None (inr one_chunk_then_EOF))) = 0%nat
   ∧ terminators (handleChatCompletionsStream client
                    (streamRequest background None (inr one_chunk_then_reset))) = 0%nat
   ∧ terminators (handleChatCompletionsStream client (inr [])) = 0%nat)
  ∧ (body (handleStream client
             (streamRequest background None (inr one_chunk_then_EOF)))
     = [Text (data_line "{x:1}"); terminator]
     ∧ terminators (handleStream client
                      (streamRequest background None (inr one_chunk_then_reset))) = 1%nat
     ∧ terminators (handleStream client (inr [])) = 1%nat).
Proof. vm_compute. done. Qed.

End Relay.

(** * The generic backend *)

Section GenericBackend.

Import Backends Scenario.

Lemma options_keep_healthy {URL : Type} (opts : list (GenericBackendOption (URL := URL))) b :
  Forall package_option opts →
  healthy (foldl (λ b opt, opt b) b opts) = healthy b.
Proof.
  intros Hopts. revert b.
  induction Hopts as [|opt opts Hopt _ IH]; intros b; simpl; [done|].
  rewrite IH. by destruct Hopt.
Qed.

(** C9.  For every id and every base URL the parser accepts, and
    whatever options of the package are given, the backend returned by
    [NewGenericBackend] reports [IsHealthy() = true]: no health check
    has run yet. *)
Theorem NewGenericBackend_healthy {URL : Type} (parse : string → error + URL)
    id_ baseURL_ opts b :
  Forall package_option opts →
  NewGenericBackend parse id_ baseURL_ opts = inr b →
  Backends.IsHealthy b = true.
Proof.
  intros Hopts. unfold NewGenericBackend.
  destruct (parse baseURL_) as [err|u]; [done|].
  intros [= <-]. unfold Backends.IsHealthy. by rewrite options_keep_healthy.
Qed.

(** C9 at a vLLM backend built with both options. *)
Lemma NewGenericBackend_healthy_witness :
  ∃ b, NewGenericBackend url_Parse "vllm-1" "http://localhost:8000"
         [WithBackendType Registry.BackendVLLM; WithHTTPClient {| Timeout := 60 * Minute |}]
       = inr b
       ∧ Backends.IsHealthy b = true.
Proof.
  eexists. split; [reflexivity|].
  eapply (NewGenericBackend_healthy url_Parse "vllm-1" "http://localhost:8000"
            [WithBackendType Registry.BackendVLLM; WithHTTPClient {| Timeout := 60 * Minute |}]).
  - repeat constructor.
  - reflexivity.
Defined.

(** C10.  [ChatCompletionStream] and [CompletionStream] leave the
    caller's request with [Stream] set and every other field as it
    was, whatever the marshalling and the HTTP exchange give, an error
    included. *)
Theorem stream_calls_set_Stream {Fields : Type}
    (json_Marshal : Request (Fields := Fields) → error + string) ctx http req :
  fst (ChatCompletionStream json_Marshal ctx http req)
    = {| Backends.Model := Backends.Model req; Stream := true; Other := Other req |}
  ∧ fst (CompletionStream json_Marshal ctx http req)
    = {| Backends.Model := Backends.Model req; Stream := true; Other := Other req |}.
Proof.
  unfold ChatCompletionStream, CompletionStream, set_Stream.
  split; by destruct (json_Marshal _).
Qed.

End GenericBackend.

(** * More on the registry *)

Section RegistryOperations.

Import Registry Inventory Scenario Fixtures.

(** ** What the lookups return *)

Lemma firstHealthy_Some bs backendIDs b :
  firstHealthy bs backendIDs = Some b →
  ∃ bid, bid ∈ backendIDs ∧ bs !! bid = Some b ∧ IsHealthy b = true.
Proof.
  induction backendIDs as [|bid rest IH]; simpl; [done|].
  destruct (bs !! bid) as [backend|] eqn:Hb.
  - destruct (IsHealthy backend) eqn:Hh.
    + intros [= <-]. exists bid. split; [by left|done].
    + intros (bid' & ? & ?)%IH. exists bid'. split; [by right|done].
  - intros (bid' & ? & ?)%IH. exists bid'. split; [by right|done].
Qed.

Lemma firstHealthy_None bs backendIDs bid b :
  firstHealthy bs backendIDs = None →
  bid ∈ backendIDs → bs !! bid = Some b → IsHealthy b = false.
Proof.
  induction backendIDs as [|bid0 rest IH]; simpl; [by intros _ ?%elem_of_nil|].
  intros Hf [->|Hin]%elem_of_cons Hb.
  - rewrite Hb in Hf. by destruct (IsHealthy b).
  - apply IH; [|done..]. destruct (bs !! bid0) as [b0|]; [|done].
    by destruct (IsHealthy b0).
Qed.

Lemma slice_at_elem_of {X : Type} (l : list X) (i : Z) (x : X) :
  slice_at l i = Ret x → x ∈ l.
Proof.
  unfold slice_at. destruct (i <? 0); [done|].
  destruct (l !! Z.to_nat i) as [y|] eqn:E; [|done].
  intros [= <-]. by eapply list_elem_of_lookup_2.
Qed.

Lemma elem_of_mapped_list (bs : gmap string Backend) (backendIDs : list string) b :
  b ∈ omap (λ bid, bs !! bid) backendIDs ↔ ∃ bid, bid ∈ backendIDs ∧ bs !! bid = Some b.
Proof. apply list_elem_of_omap. Qed.

Lemma LookupByModel_from_sequence r modelID b :
  LookupByModel r modelID = Some b →
  ∃ bid, serves r bid modelID ∧ backends r !! bid = Some b.
Proof.
  unfold LookupByModel, serves.
  destruct (models r !! modelID) as [[|bid0 rest]|] eqn:Hm; [done| |done].
  destruct (firstHealthy _ _) as [backend|] eqn:Hf.
  - intros [= <-]. apply firstHealthy_Some in Hf as (bid & Hin & Hb & _).
    exists bid. eauto.
  - intros Hb. exists bid0. split; [|done]. eexists. split; [done|by left].
Qed.

Lemma session_selection bs backendIDs sessionID res :
  (let '(allBackends, healthyBackends) := collect bs backendIDs in
   let allBackends := sort_Slice lessID allBackends in
   let healthyBackends := sort_Slice lessID healthyBackends in
   if len allBackends =? 0 then Ret None
   else
     preferredIndex ← hashSessionToIndex sessionID (len allBackends);
     preferredBackend ← slice_at allBackends preferredIndex;
     if IsHealthy preferredBackend then
       Ret (Some {| Result_Backend := preferredBackend; SessionBroken := false |})
     else if 0 <? len healthyBackends then
       fallbackIndex ← hashSessionToIndex sessionID (len healthyBackends);
       fallback ← slice_at healthyBackends fallbackIndex;
       Ret (Some {| Result_Backend := fallback; SessionBroken := true |})
     else
       Ret (Some {| Result_Backend := preferredBackend; SessionBroken := true |}))
  = Ret (Some res) →
  let found := omap (λ bid, bs !! bid) backendIDs in
  Result_Backend res ∈ found
  ∧ (IsHealthy (Result_Backend res) = false → Forall (λ b, IsHealthy b = false) found)
  ∧ (SessionBroken res = true →
     ∃ preferred, preferred ∈ found ∧ IsHealthy preferred = false).
Proof.
  rewrite collect_spec. cbv beta iota zeta.
  set (found := omap (λ bid, bs !! bid) backendIDs).
  rewrite (filter_sort_Slice lessID lessID_asym lessID_negtrans).
  pose proof (sort_Slice_perm lessID found) as Hperm.
  set (all := sort_Slice lessID found) in *.
  destruct (len all =? 0); [done|].
  destruct (hashSessionToIndex sessionID (len all)) as [i|]; [|done].
  cbn [mbind outcome_bind].
  destruct (slice_at all i) as [preferred|] eqn:Hp; [|done].
  cbn [mbind outcome_bind].
  apply slice_at_elem_of in Hp.
  destruct (IsHealthy preferred) eqn:Hh.
  { intros [= <-]. simpl. rewrite <- Hperm. split; [done|]. split; [congruence|done]. }
  destruct (Z.ltb_spec 0 (len (List.filter IsHealthy all))) as [Hpos|Hpos].
  - destruct (hashSessionToIndex sessionID _) as [j|]; [|done].
    cbn [mbind outcome_bind].
    destruct (slice_at _ j) as [fallback|] eqn:Hfb; [|done].
    cbn [mbind outcome_bind]. intros [= <-]. simpl.
    apply slice_at_elem_of, list_elem_of_In, filter_In in Hfb as [Hin Hfh].
    apply list_elem_of_In in Hin.
    rewrite <- Hperm. split; [done|]. split; [congruence|].
    intros _. exists preferred. split; [by rewrite <- Hperm|done].
  - intros [= <-]. simpl. rewrite <- Hperm. split; [done|]. split.
    + intros _. apply Forall_forall. intros b Hb.
      destruct (IsHealthy b) eqn:Hbh; [|done].
      assert (b ∈ List.filter IsHealthy all) as Hin.
      { apply list_elem_of_In, filter_In. split; [by apply list_elem_of_In|done]. }
      destruct (List.filter IsHealthy all) as [|h0 hs]; [by apply elem_of_nil in Hin|].
      pose proof (len_nonempty h0 hs). lia.
    + intros _. exists preferred. split; [by rewrite <- Hperm|done].
Qed.

Lemma LookupByModel_result r modelID b :
  LookupByModel r modelID = Some b →
  b ∈ mapped r modelID
  ∧ (IsHealthy b = false → Forall (λ b', IsHealthy b' = false) (mapped r modelID)).
Proof.
  unfold LookupByModel, mapped.
  destruct (models r !! modelID) as [[|bid0 rest]|] eqn:Hm; [done| |done].
  cbn [default id].
  destruct (firstHealthy _ _) as [backend|] eqn:Hf.
  - intros [= <-]. apply firstHealthy_Some in Hf as (bid & Hin & Hb & Hh).
    split; [|congruence]. apply list_elem_of_omap. eauto.
  - intros Hb. split.
    + apply list_elem_of_omap. exists bid0. split; [by left|done].
    + intros _. apply Forall_forall.
      intros b' (bid & Hin & Hb')%list_elem_of_omap.
      by eapply firstHealthy_None.
Qed.

(** What the session lookup returns is a backend of the model; it is
    unhealthy only if all of them are, and the session is reported
    broken only for a session id that is not empty and when one of
    them is unhealthy. *)
Lemma LookupByModelWithSession_result r modelID sessionID res :
  LookupByModelWithSession r modelID sessionID = Ret (Some res) →
  Result_Backend res ∈ mapped r modelID
  ∧ (IsHealthy (Result_Backend res) = false →
     Forall (λ b', IsHealthy b' = false) (mapped r modelID))
  ∧ (SessionBroken res = true →
     sessionID ≠ EmptyString
     ∧ ∃ preferred, preferred ∈ mapped r modelID ∧ IsHealthy preferred = false).
Proof.
  destruct (String.eqb_spec sessionID EmptyString) as [->|Hs].
  - intros Hl.
    assert (LookupByModel r modelID = Some (Result_Backend res)
            ∧ SessionBroken res = false) as [Hl' Hb].
    { revert Hl. unfold LookupByModelWithSession, LookupByModel.
      destruct (models r !! modelID) as [[|bid0 rest]|]; [done| |done].
      cbn [String.eqb].
      destruct (firstHealthy _ _); [by intros [= <-]|].
      destruct (backends r !! bid0); [by intros [= <-]|done]. }
    destruct (LookupByModel_result _ _ _ Hl') as [? ?].
    split_and!; [done..|]. congruence.
  - unfold LookupByModelWithSession, mapped.
    destruct (models r !! modelID) as [[|bid0 rest]|] eqn:Hm; [done| |done].
    cbn [default id].
    destruct (String.eqb_spec sessionID EmptyString) as [|_]; [done|].
    intros (Hin & Hall & Hbroken)%session_selection. split_and!; [done..|].
    intros Hb. split; [done|]. by apply Hbroken.
Qed.

Lemma returned_result r modelID b :
  returned r modelID b →
  b ∈ mapped r modelID
  ∧ (IsHealthy b = false → Forall (λ b', IsHealthy b' = false) (mapped r modelID)).
Proof.
  intros [Hl|(sessionID & broken & Hl)].
  - by apply LookupByModel_result.
  - apply LookupByModelWithSession_result in Hl as (? & ? & _). by split.
Qed.

Lemma elem_of_mapped r modelID b :
  b ∈ mapped r modelID ↔ ∃ bid, serves r bid modelID ∧ backends r !! bid = Some b.
Proof.
  unfold mapped, serves. rewrite list_elem_of_omap. split.
  - intros (bid & Hin & Hb). exists bid. split; [|done].
    destruct (models r !! modelID) as [l|]; [eauto|by apply elem_of_nil in Hin].
  - intros (bid & (l & -> & Hin) & Hb). eauto.
Qed.

(** X1.  After any sequence of [Register], [Unregister] and
    [RefreshModels] on an empty registry, the sequence of a model is
    never empty and never holds a backend id twice. *)
Theorem index_sequences_deduplicated ops modelID backendIDs :
  models (run ops) !! modelID = Some backendIDs →
  backendIDs ≠ [] ∧ NoDup backendIDs.
Proof.
  intros Hm. destruct (well_formed_run ops) as (_ & _ & Hd).
  destruct (Hd _ _ Hm). done.
Qed.

(** X1 at the fleet of three. *)
Lemma index_sequences_deduplicated_witness :
  ["backend-c"; "backend-a"; "backend-b"]%string ≠ []
  ∧ NoDup ["backend-c"; "backend-a"; "backend-b"]%string.
Proof.
  apply (index_sequences_deduplicated
           [ OpRegister (newMockBackend "backend-c" true) (inr [model "test-model"]);
             OpRegister (newMockBackend "backend-a" false) (inr [model "test-model"]);
             OpRegister (newMockBackend "backend-b" true) (inr [model "test-model"]) ]
           "test-model").
  vm_compute. reflexivity.
Defined.

(** X2.  In a registry reached by [Register], [Unregister] and
    [RefreshModels], the backend a lookup returns for a model is the
    handle registered under its own id, and this id is in the sequence
    of the model. *)
Theorem lookup_returns_registered ops modelID b :
  returned (run ops) modelID b →
  serves (run ops) (ID b) modelID ∧ LookupByID (run ops) (ID b) = Some b.
Proof.
  intros [(bid & Hs & Hb)%elem_of_mapped _]%returned_result.
  destruct (well_formed_run ops) as (_ & Hk & _).
  rewrite (Hk _ _ Hb). done.
Qed.

(** X2 at the fleet of three. *)
Lemma lookup_returns_registered_witness :
  serves fleet "backend-c" "test-model"
  ∧ LookupByID fleet "backend-c" = Some (newMockBackend "backend-c" true).
Proof.
  apply (lookup_returns_registered _ "test-model" (newMockBackend "backend-c" true)).
  left. vm_compute. reflexivity.
Defined.

(** X3.  A lookup returns an unhealthy backend only when every backend
    of the model is unhealthy. *)
Theorem lookup_prefers_healthy r modelID b bid b' :
  returned r modelID b → IsHealthy b = false →
  serves r bid modelID → backends r !! bid = Some b' →
  IsHealthy b' = false.
Proof.
  intros [_ Hall]%returned_result Hb Hs Hb'.
  apply (proj1 (Forall_forall _ _) (Hall Hb)), elem_of_mapped. eauto.
Qed.

(** X3 when both backends of the model are down: what the lookup
    returns is unhealthy, and so is the other backend. *)
Lemma lookup_prefers_healthy_witness :
  LookupByModel (run all_down_ops) "test-model" = Some (newMockBackend "backend-a" false)
  ∧ IsHealthy (newMockBackend "backend-b" false) = false.
Proof.
  split; [vm_compute; reflexivity|].
  apply (lookup_prefers_healthy (run all_down_ops) "test-model"
           (newMockBackend "backend-a" false) "backend-b").
  - left. vm_compute. reflexivity.
  - reflexivity.
  - exists ["backend-a"; "backend-b"]%string. split; [vm_compute; reflexivity|].
    vm_compute. apply list_elem_of_In. simpl. tauto.
  - vm_compute. reflexivity.
Defined.

(** ** What the operations change *)

Lemma index_backends backendID (ms : list Model) r :
  backends (foldl (λ r' model, addModelMapping (Model_ID model) backendID r') r ms)
  = backends r.
Proof.
  revert r. induction ms as [|model ms IH]; intros r; simpl; [done|].
  by rewrite IH, addModelMapping_backends.
Qed.

Lemma addModelMapping_serves modelID backendID r bid m :
  serves (addModelMapping modelID backendID r) bid m
  ↔ serves r bid m ∨ (bid = backendID ∧ m = modelID).
Proof.
  unfold serves. setoid_rewrite addModelMapping_lookup.
  case_decide as Hm; [subst m|].
  - cbn zeta. case_decide as Hin.
    + split; [by left|]. intros [?|[-> _]]; [done|].
      destruct (models r !! modelID) as [l|]; [eauto|by apply elem_of_nil in Hin].
    + split.
      * intros (l & [= <-] & [Hbid| ->%list_elem_of_singleton]%elem_of_app); [|by right].
        left. destruct (models r !! modelID) as [l|]; [eauto|by apply elem_of_nil in Hbid].
      * intros [(l & Hl & Hbid)|[-> _]]; eexists; (split; [done|]).
        -- rewrite Hl. apply elem_of_app. by left.
        -- apply elem_of_app. right. by left.
  - split; [by left|]. by intros [?|[_ ?]].
Qed.

Lemma index_serves backendID (ms : list Model) r bid m :
  serves (foldl (λ r' model, addModelMapping (Model_ID model) backendID r') r ms) bid m
  ↔ serves r bid m ∨ (bid = backendID ∧ m ∈ Model_ID <$> ms).
Proof.
  revert r. induction ms as [|model ms IH]; intros r; csimpl.
  - split; [by left|]. by intros [?|[_ ?%elem_of_nil]].
  - rewrite IH, addModelMapping_serves, elem_of_cons. intuition congruence.
Qed.

Lemma removeMappings_serves id r bs bid m :
  serves {| backends := bs; models := removeMappings id (models r) |} bid m
  ↔ serves r bid m ∧ bid ≠ id.
Proof.
  unfold serves. cbn [models]. setoid_rewrite removeMappings_lookup. split.
  - intros (l & (l0 & Hl0 & -> & _) & [Hin Hne]%elem_of_filter_ne). eauto.
  - intros [(l0 & Hl0 & Hin) Hne].
    assert (bid ∈ List.filter (λ bid, negb (bool_decide (bid = id))) l0) as Hf
      by by apply elem_of_filter_ne.
    eexists. split; [|exact Hf]. exists l0. split_and!; [done..|].
    intros E. rewrite E in Hf. by apply elem_of_nil in Hf.
Qed.

Lemma Register_serves b (ms : list Model) r bid m :
  serves (Register b (inr ms) r) bid m
  ↔ serves r bid m ∨ (bid = ID b ∧ m ∈ Model_ID <$> ms).
Proof. unfold Register. by rewrite index_serves. Qed.

(** X4.  After a successful [RefreshModels] the backend is mapped to
    exactly the models of the list just fetched. *)
Theorem RefreshModels_maps_fetched backendID (ms : list Model) r m :
  is_Some (backends r !! backendID) →
  serves (fst (RefreshModels backendID (inr ms) r)) backendID m
  ↔ m ∈ Model_ID <$> ms.
Proof.
  intros [b Hb]. unfold RefreshModels. rewrite Hb. cbn [fst].
  rewrite index_serves, removeMappings_serves. intuition congruence.
Qed.

(** X4 on the fleet: [backend-a] is refreshed with the model [small]
    alone. *)
Lemma RefreshModels_maps_fetched_witness :
  serves (fst (RefreshModels "backend-a" (inr [model "small"]) fleet)) "backend-a" "small"
  ∧ ¬ serves (fst (RefreshModels "backend-a" (inr [model "small"]) fleet))
        "backend-a" "test-model".
Proof.
  assert (is_Some (backends fleet !! "backend-a")) as Hb by (vm_compute; eauto).
  split.
  - apply (RefreshModels_maps_fetched "backend-a" [model "small"] fleet "small" Hb).
    vm_compute. left.
  - intros Hs.
    apply (RefreshModels_maps_fetched "backend-a" [model "small"] fleet "test-model" Hb)
      in Hs.
    vm_compute in Hs. apply list_elem_of_In in Hs. simpl in Hs.
    destruct Hs as [Hs|[]]. discriminate Hs.
Defined.

(** X5.  An operation about one backend id changes neither the handle
    registered under another id nor the models that id is mapped to. *)
Theorem step_frame r o bid m :
  target o ≠ bid →
  backends (step r o) !! bid = backends r !! bid
  ∧ (serves (step r o) bid m ↔ serves r bid m).
Proof.
  destruct o as [b fetch|id|backendID fetch]; cbn [target step]; intros Hne.
  - split.
    + unfold Register. destruct fetch as [err|ms]; rewrite ?index_backends;
        by apply lookup_insert_ne.
    + destruct fetch as [err|ms]; [done|]. rewrite Register_serves. intuition congruence.
  - split.
    + by apply lookup_delete_ne.
    + unfold Unregister. rewrite removeMappings_serves. intuition congruence.
  - unfold RefreshModels. destruct (backends r !! backendID) as [b|]; [|done].
    destruct fetch as [err|ms]; cbn [fst].
    + split; [done|]. rewrite removeMappings_serves. intuition congruence.
    + rewrite index_backends. split; [done|].
      rewrite index_serves, removeMappings_serves. intuition congruence.
Qed.

(** X5 on the fleet: unregistering [backend-a] leaves [backend-c]. *)
Lemma step_frame_witness :
  backends (step fleet (OpUnregister "backend-a")) !! "backend-c"
  = backends fleet !! "backend-c"
  ∧ (serves (step fleet (OpUnregister "backend-a")) "backend-c" "test-model"
     ↔ serves fleet "backend-c" "test-model").
Proof.
  apply (step_frame fleet (OpUnregister "backend-a") "backend-c" "test-model").
  vm_compute. discriminate.
Defined.

Lemma index_noop backendID (ms : list Model) r :
  (∀ model, model ∈ ms → serves r backendID (Model_ID model)) →
  foldl (λ r' model, addModelMapping (Model_ID model) backendID r') r ms = r.
Proof.
  induction ms as [|model ms IH]; intros Hs; simpl; [done|].
  assert (addModelMapping (Model_ID model) backendID r = r) as ->.
  { unfold addModelMapping.
    destruct (Hs model) as (l & Hl & Hin); [by left|].
    rewrite Hl. cbn [default id].
    by rewrite (proj2 (existsb_bid backendID l) Hin). }
  apply IH. intros model' Hin. apply Hs. by right.
Qed.

(** X6.  [Register] is idempotent: registering a backend a second time
    with the same outcome of [Models] leaves the registry as the first
    registration left it. *)
Theorem Register_idempotent b fetch r :
  Register b fetch (Register b fetch r) = Register b fetch r.
Proof.
  destruct fetch as [err|ms].
  - unfold Register. cbn [backends models]. by rewrite insert_insert_eq.
  - set (r' := Register b (inr ms) r).
    assert (backends r' = <[ID b := b]> (backends r)) as Hb
      by (unfold r', Register; by rewrite index_backends).
    unfold Register at 1.
    assert ({| backends := <[ID b := b]> (backends r'); models := models r' |} = r') as ->.
    { rewrite Hb, insert_insert_eq, <- Hb. by destruct r'. }
    apply index_noop. intros model Hin. apply Register_serves. right.
    split; [done|]. by apply list_elem_of_fmap_2.
Qed.

(** X7.  Once a healthy backend is registered with a model in its
    list, [LookupByModel] finds a backend for the model, and every
    backend a lookup returns for it is healthy. *)
Theorem Register_healthy_routes b (ms : list Model) model r :
  IsHealthy b = true → model ∈ ms →
  is_Some (LookupByModel (Register b (inr ms) r) (Model_ID model))
  ∧ ∀ b', returned (Register b (inr ms) r) (Model_ID model) b' → IsHealthy b' = true.
Proof.
  intros Hh Hin. set (r' := Register b (inr ms) r).
  assert (b ∈ mapped r' (Model_ID model)) as Hb.
  { apply elem_of_mapped. exists (ID b). split.
    - apply Register_serves. right. split; [done|]. by apply list_elem_of_fmap_2.
    - unfold r', Register. rewrite index_backends. apply lookup_insert_eq. }
  split.
  - apply elem_of_mapped in Hb as (bid & (l & Hl & Hbid) & Hbb).
    unfold LookupByModel. rewrite Hl.
    destruct l as [|bid0 rest]; [by apply elem_of_nil in Hbid|].
    destruct (firstHealthy _ _) as [b0|] eqn:Hf; [eauto|].
    pose proof (firstHealthy_None _ _ _ _ Hf Hbid Hbb). congruence.
  - intros b' [_ Hall]%returned_result.
    destruct (IsHealthy b') eqn:Hb'; [done|].
    pose proof (proj1 (Forall_forall _ _) (Hall eq_refl) b Hb). congruence.
Qed.

(** X7: a healthy backend joins the two that are down. *)
Lemma Register_healthy_routes_witness :
  is_Some (LookupByModel
             (Register (newMockBackend "backend-c" true) (inr [model "test-model"])
                       (run all_down_ops)) "test-model")
  ∧ ∀ b', returned (Register (newMockBackend "backend-c" true) (inr [model "test-model"])
                             (run all_down_ops)) "test-model" b' →
          IsHealthy b' = true.
Proof.
  apply (Register_healthy_routes (newMockBackend "backend-c" true)
           [model "test-model"] (model "test-model") (run all_down_ops)).
  - reflexivity.
  - left.
Defined.

(** X8.  After [Unregister(id)] on a registry reached by the registry
    operations, no lookup returns a backend with this id. *)
Theorem Unregister_forgets ops id modelID b :
  returned (Unregister id (run ops)) modelID b → ID b ≠ id.
Proof.
  intros [(bid & Hs & Hb)%elem_of_mapped _]%returned_result.
  destruct (well_formed_run ops) as (_ & Hk & _).
  cbn [Unregister backends] in Hb.
  apply lookup_delete_Some in Hb as [Hne Hb].
  by rewrite (Hk _ _ Hb).
Qed.

(** X8 on the fleet: with [backend-c] gone the lookup returns
    [backend-b]. *)
Lemma Unregister_forgets_witness :
  ID (newMockBackend "backend-b" true) ≠ "backend-c"%string.
Proof.
  apply (Unregister_forgets fleet_ops "backend-c" "test-model"
           (newMockBackend "backend-b" true)).
  left. vm_compute. reflexivity.
Defined.

(** X9.  A [RefreshModels] that returns an error either did not find
    the backend, and left the registry alone, or could not fetch the
    models: the backend stays registered and is mapped to no model. *)
Theorem RefreshModels_error backendID fetch r err :
  snd (RefreshModels backendID fetch r) = Some err →
  (backends r !! backendID = None
   ∧ err = ("backend not found: " ++ backendID)%string
   ∧ fst (RefreshModels backendID fetch r) = r)
  ∨ (fetch = inl err
     ∧ backends (fst (RefreshModels backendID fetch r)) = backends r
     ∧ is_Some (backends r !! backendID)
     ∧ ∀ m, ¬ serves (fst (RefreshModels backendID fetch r)) backendID m).
Proof.
  unfold RefreshModels. destruct (backends r !! backendID) as [b|] eqn:Hb.
  - destruct fetch as [err'|ms]; cbn [fst snd]; [|done].
    intros [= ->]. right. split_and!; [done|done|eauto|].
    intros m [_ Hne]%removeMappings_serves. done.
  - cbn [fst snd]. intros [= <-]. by left.
Qed.

(** X9 on the fleet: the models of [backend-a] cannot be fetched. *)
Lemma RefreshModels_error_witness :
  snd (RefreshModels "backend-a" (inl "timeout"%string) fleet) = Some "timeout"%string
  ∧ LookupByID (fst (RefreshModels "backend-a" (inl "timeout"%string) fleet)) "backend-a"
    = Some (newMockBackend "backend-a" false)
  ∧ ¬ serves (fst (RefreshModels "backend-a" (inl "timeout"%string) fleet))
        "backend-a" "test-model".
Proof.
  assert (snd (RefreshModels "backend-a" (inl "timeout"%string) fleet)
          = Some "timeout"%string) as Herr by (vm_compute; reflexivity).
  split_and!; [done|vm_compute; reflexivity|].
  destruct (RefreshModels_error "backend-a" (inl "timeout"%string) fleet "timeout" Herr)
    as [(Hnone & _)|(_ & _ & _ & Hserves)].
  - vm_compute in Hnone. discriminate Hnone.
  - apply Hserves.
Defined.

(** X10.  For a positive count, [hashSessionToIndex] panics exactly
    when the count is a multiple of [2^32], which [uint32] turns into
    zero, and an index it returns is below the count. *)
Theorem hashSessionToIndex_in_range sessionID count :
  0 < count →
  (hashSessionToIndex sessionID count = Panic ↔ count mod 2 ^ 32 = 0)
  ∧ ∀ i, hashSessionToIndex sessionID count = Ret i → 0 ≤ i < count.
Proof.
  intros Hc. unfold hashSessionToIndex, uint32.
  pose proof (Z.mod_pos_bound count (2 ^ 32) ltac:(lia)) as Hm.
  pose proof (Z.mod_le count (2 ^ 32) ltac:(lia) ltac:(lia)) as Hle.
  destruct (Z.eqb_spec (count mod 2 ^ 32) 0) as [Hz|Hz].
  - split; [done|]. by intros i.
  - split; [split; [done|lia]|]. intros i [= <-].
    pose proof (Z.mod_pos_bound (fnv.Sum32 sessionID) (count mod 2 ^ 32) ltac:(lia)).
    lia.
Qed.

(** X10 for three backends. *)
Lemma hashSessionToIndex_in_range_witness :
  (hashSessionToIndex "session-123" 3 = Panic ↔ 3 mod 2 ^ 32 = 0)
  ∧ ∀ i, hashSessionToIndex "session-123" 3 = Ret i → 0 ≤ i < 3.
Proof. apply (hashSessionToIndex_in_range "session-123" 3). lia. Defined.

(** ** Session routing does not depend on the order of registration *)

Lemma sort_Slice_mapped_perm r1 r2 modelID :
  well_formed r2 →
  mapped r1 modelID ≡ₚ mapped r2 modelID →
  sort_Slice lessID (mapped r1 modelID) = sort_Slice lessID (mapped r2 modelID).
Proof.
  intros Hwf Hperm. apply (sort_Slice_unique r2 modelID); [done| |].
  - by rewrite sort_Slice_perm.
  - apply sort_Slice_ascending.
Qed.

(** X11.  Two registries reached by the registry operations that hold
    the same backends, and map a model to the same backend ids in
    whatever order, route every session of the model alike. *)
Theorem session_routing_ignores_order ops1 ops2 modelID sessionID :
  sessionID ≠ EmptyString →
  backends (run ops1) = backends (run ops2) →
  default [] (models (run ops1) !! modelID) ≡ₚ default [] (models (run ops2) !! modelID) →
  LookupByModelWithSession (run ops1) modelID sessionID
  = LookupByModelWithSession (run ops2) modelID sessionID.
Proof.
  intros Hs Hb Hperm.
  pose proof (well_formed_run ops1) as Hwf1.
  pose proof (well_formed_run ops2) as Hwf2.
  assert (mapped (run ops1) modelID ≡ₚ mapped (run ops2) modelID) as Hmapped.
  { unfold mapped. rewrite Hb. by apply omap_Permutation. }
  pose proof (sort_Slice_mapped_perm _ _ modelID Hwf2 Hmapped) as Hsorted.
  revert Hperm Hmapped Hsorted. unfold LookupByModelWithSession, mapped.
  destruct Hwf1 as (_ & _ & Hd1), Hwf2 as (_ & _ & Hd2).
  destruct (models (run ops1) !! modelID) as [l1|] eqn:Hm1;
    destruct (models (run ops2) !! modelID) as [l2|] eqn:Hm2; cbn [default id].
  - destruct (Hd1 _ _ Hm1) as [_ Hne1], (Hd2 _ _ Hm2) as [_ Hne2].
    destruct l1 as [|a1 l1]; [done|]. destruct l2 as [|a2 l2]; [done|].
    destruct (String.eqb_spec sessionID EmptyString) as [|_]; [done|].
    intros _ _ Hsorted. rewrite !collect_spec. cbv beta iota zeta.
    rewrite !(filter_sort_Slice lessID lessID_asym lessID_negtrans).
    by rewrite Hsorted.
  - destruct (Hd1 _ _ Hm1) as [_ Hne1].
    intros ->%Permutation_nil_r. done.
  - destruct (Hd2 _ _ Hm2) as [_ Hne2].
    intros Hp. symmetry in Hp. by apply Permutation_nil_r in Hp.
  - done.
Qed.

(** X11 on the fleet registered in two orders. *)
Lemma session_routing_ignores_order_witness :
  LookupByModelWithSession (run fleet_ops) "test-model" "session-123"
  = LookupByModelWithSession (run fleet_ops_sorted) "test-model" "session-123".
Proof.
  apply (session_routing_ignores_order fleet_ops fleet_ops_sorted
           "test-model" "session-123").
  - discriminate.
  - vm_compute. reflexivity.
  - apply (bool_decide_unpack _). vm_compute. exact I.
Defined.

(** ** [AllModels] *)

Lemma AllModels_model_spec backendID r seen allModels model :
  (∀ x, x ∈ seen ↔ x ∈ Model_ID <$> allModels) →
  NoDup (Model_ID <$> allModels) →
  ∃ r' seen' allModels',
    AllModels_model backendID (r, seen, allModels) model = (r', seen', allModels')
    ∧ r' = addModelMapping (Model_ID model) backendID r
    ∧ (∀ x, x ∈ seen' ↔ x ∈ Model_ID <$> allModels')
    ∧ NoDup (Model_ID <$> allModels')
    ∧ (∀ x, x ∈ Model_ID <$> allModels' ↔ x ∈ Model_ID <$> allModels ∨ x = Model_ID model).
Proof.
  intros Hseen Hnd. unfold AllModels_model. case_decide as Hin.
  - eexists _, _, _. split_and!; [done..|].
    intros x. split; [by left|]. intros [?| ->]; [done|]. by apply Hseen.
  - eexists _, _, _. split_and!; [done|done| | |].
    + intros x. rewrite fmap_app, elem_of_app, elem_of_union, elem_of_singleton.
      csimpl. rewrite list_elem_of_singleton, Hseen. tauto.
    + rewrite fmap_app. apply NoDup_app. split_and!; [done| |apply NoDup_singleton].
      intros x Hx ->%list_elem_of_singleton. by apply Hin, Hseen.
    + intros x. rewrite fmap_app, elem_of_app. csimpl.
      by rewrite list_elem_of_singleton.
Qed.

Lemma AllModels_models_spec backendID (ms : list Model) r seen allModels :
  (∀ x, x ∈ seen ↔ x ∈ Model_ID <$> allModels) →
  NoDup (Model_ID <$> allModels) →
  ∃ seen' allModels',
    foldl (AllModels_model backendID) (r, seen, allModels) ms
    = (foldl (λ r' model, addModelMapping (Model_ID model) backendID r') r ms,
       seen', allModels')
    ∧ (∀ x, x ∈ seen' ↔ x ∈ Model_ID <$> allModels')
    ∧ NoDup (Model_ID <$> allModels')
    ∧ (∀ x, x ∈ Model_ID <$> allModels'
            ↔ x ∈ Model_ID <$> allModels ∨ x ∈ Model_ID <$> ms).
Proof.
  revert r seen allModels.
  induction ms as [|model ms IH]; intros r seen allModels Hseen Hnd; cbn [foldl].
  - eexists _, _. split_and!; [done..|].
    intros x. split; [by left|]. by intros [?|?%elem_of_nil].
  - destruct (AllModels_model_spec backendID r seen allModels model Hseen Hnd)
      as (r1 & seen1 & all1 & -> & -> & Hseen1 & Hnd1 & Hall1).
    destruct (IH (addModelMapping (Model_ID model) backendID r) seen1 all1 Hseen1 Hnd1)
      as (seen' & all' & -> & Hseen' & Hnd' & Hall').
    eexists _, _. split_and!; [done..|].
    intros x. rewrite Hall', Hall1. csimpl. rewrite elem_of_cons. tauto.
Qed.

Lemma AllModels_spec visited r seen allModels :
  (∀ x, x ∈ seen ↔ x ∈ Model_ID <$> allModels) →
  NoDup (Model_ID <$> allModels) →
  ∃ seen' allModels',
    foldl AllModels_backend (r, seen, allModels) visited
    = (foldl AllModels_index r visited, seen', allModels')
    ∧ NoDup (Model_ID <$> allModels')
    ∧ (∀ x, x ∈ Model_ID <$> allModels'
            ↔ x ∈ Model_ID <$> allModels ∨ reported visited x).
Proof.
  revert r seen allModels.
  induction visited as [|[b fetch] visited IH]; intros r seen allModels Hseen Hnd;
    cbn [foldl].
  - eexists _, _. split_and!; [done..|].
    intros x. split; [by left|]. by intros [?|(? & ? & ?%elem_of_nil & _)].
  - assert (∀ x, reported ((b, fetch) :: visited) x
                 ↔ (∃ ms, fetch = inr ms ∧ x ∈ Model_ID <$> ms) ∨ reported visited x)
      as Hrep.
    { intros x. unfold reported. split.
      - intros (b' & ms & [[= -> <-]|Hin]%elem_of_cons & Hx); eauto.
      - intros [(ms & -> & Hx)|(b' & ms & Hin & Hx)].
        + exists b, ms. split; [by left|done].
        + exists b', ms. split; [by right|done]. }
    unfold AllModels_backend at 2, AllModels_index at 2. cbn [fst snd].
    destruct fetch as [err|ms].
    + destruct (IH r seen allModels Hseen Hnd) as (seen' & all' & -> & Hnd' & Hall').
      eexists _, _. split_and!; [done..|].
      intros x. rewrite Hall', Hrep. split; [tauto|].
      intros [?|[(ms & [=] & _)|?]]; tauto.
    + destruct (AllModels_models_spec (ID b) ms r seen allModels Hseen Hnd)
        as (seen1 & all1 & -> & Hseen1 & Hnd1 & Hall1).
      destruct (IH (foldl (λ r' model, addModelMapping (Model_ID model) (ID b) r') r ms)
                  seen1 all1 Hseen1 Hnd1) as (seen' & all' & -> & Hnd' & Hall').
      eexists _, _. split_and!; [done..|].
      intros x. rewrite Hall', Hall1, Hrep. split.
      * intros [[?|?]|?]; eauto.
      * intros [?|[(ms' & [= <-] & ?)|?]]; eauto.
Qed.

Lemma AllModels_listed visited r :
  ∃ allModels,
    AllModels visited r = (foldl AllModels_index r visited, allModels)
    ∧ NoDup (Model_ID <$> allModels)
    ∧ ∀ x, x ∈ Model_ID <$> allModels ↔ reported visited x.
Proof.
  unfold AllModels.
  destruct (AllModels_spec visited r ∅ []) as (seen' & all' & -> & Hnd & Hall).
  - intros x. csimpl. rewrite elem_of_nil. set_solver.
  - constructor.
  - eexists. split_and!; [done..|]. intros x. rewrite Hall. csimpl.
    rewrite elem_of_nil. tauto.
Qed.

(** X12.  [AllModels] lists every model id that a backend reported
    during the call, and lists no id twice, whatever the order in which
    the backends are visited. *)
Theorem AllModels_lists_once visited r :
  NoDup (Model_ID <$> (AllModels visited r).2)
  ∧ ∀ modelID, modelID ∈ Model_ID <$> (AllModels visited r).2 ↔ reported visited modelID.
Proof. by destruct (AllModels_listed visited r) as (allModels & -> & ? & ?). Qed.

Lemma LookupByModel_is_Some r modelID :
  well_formed r →
  is_Some (LookupByModel r modelID) ↔ is_Some (models r !! modelID).
Proof.
  intros (Hs & _ & Hd). unfold LookupByModel.
  destruct (models r !! modelID) as [l|] eqn:Hm; [|done].
  destruct (Hd _ _ Hm) as [_ Hne]. destruct l as [|bid0 rest]; [done|].
  split; [eauto|]. intros _.
  destruct (firstHealthy _ _); [eauto|].
  apply (Hs modelID (bid0 :: rest)); [done|by left].
Qed.

(** X13.  In a registry reached by the registry operations,
    [LookupByModel] finds a backend for exactly the models that are
    keys of the index: the models [ModelCount] counts. *)
Theorem LookupByModel_finds_indexed ops modelID :
  is_Some (LookupByModel (run ops) modelID) ↔ is_Some (models (run ops) !! modelID).
Proof. apply LookupByModel_is_Some, well_formed_run. Qed.

Lemma well_formed_AllModels_index visited r :
  Forall (λ visit, is_Some (backends r !! ID visit.1)) visited →
  well_formed r →
  well_formed (foldl AllModels_index r visited)
  ∧ backends (foldl AllModels_index r visited) = backends r.
Proof.
  intros Hvisited. revert r Hvisited.
  induction visited as [|[b fetch] visited IH]; intros r Hv Hwf; cbn [foldl]; [done|].
  apply Forall_cons in Hv as [Hb Hv]. cbn [fst] in Hb.
  assert (well_formed (AllModels_index r (b, fetch))
          ∧ backends (AllModels_index r (b, fetch)) = backends r) as [Hwf1 Hb1].
  { unfold AllModels_index. cbn [fst snd]. destruct fetch as [err|ms]; [done|].
    split; [by apply well_formed_index|apply index_backends]. }
  destruct (IH (AllModels_index r (b, fetch))) as [Hwf' Hb']; [|done|].
  - eapply Forall_impl; [exact Hv|]. intros visit. cbn beta. by rewrite Hb1.
  - split; [done|]. by rewrite Hb'.
Qed.

Lemma AllModels_index_serves visited r bid m :
  serves r bid m → serves (foldl AllModels_index r visited) bid m.
Proof.
  revert r. induction visited as [|[b fetch] visited IH]; intros r Hs; cbn [foldl]; [done|].
  apply IH. unfold AllModels_index. cbn [fst snd].
  destruct fetch as [err|ms]; [done|]. apply index_serves. by left.
Qed.

Lemma AllModels_index_reported visited r x :
  reported visited x → ∃ b, serves (foldl AllModels_index r visited) (ID b) x.
Proof.
  revert r. induction visited as [|[b fetch] visited IH]; intros r (b' & ms & Hin & Hx).
  { by apply elem_of_nil in Hin. }
  cbn [foldl]. apply elem_of_cons in Hin as [[= -> <-]|Hin].
  - exists b. apply AllModels_index_serves. unfold AllModels_index. cbn [fst snd].
    apply index_serves. by right.
  - apply IH. by exists b', ms.
Qed.

(** X14.  After [AllModels] on a registry reached by the registry
    operations, every model of the list it returns can be routed:
    [LookupByModel] finds a backend for it. *)
Theorem AllModels_lists_routable ops visited model :
  ranges (run ops) visited.*1 →
  model ∈ (AllModels visited (run ops)).2 →
  is_Some (LookupByModel (AllModels visited (run ops)).1 (Model_ID model)).
Proof.
  intros Hrange Hin.
  pose proof (well_formed_run ops) as Hwf.
  destruct (AllModels_listed visited (run ops)) as (all' & Heq & _ & Hall).
  rewrite Heq in *. cbn [fst snd] in *.
  destruct (well_formed_AllModels_index visited (run ops)) as [Hwf' _]; [|done|].
  { apply Forall_forall. intros [b fetch] Hb. cbn [fst].
    assert (b ∈ (map_to_list (backends (run ops))).*2) as Hb'.
    { rewrite <- Hrange. by apply (list_elem_of_fmap_2 fst _ (b, fetch)). }
    apply list_elem_of_fmap in Hb' as ([k b'] & -> & Hkb%elem_of_map_to_list).
    cbn [snd]. destruct Hwf as (_ & Hk & _). rewrite (Hk _ _ Hkb). eauto. }
  apply LookupByModel_is_Some; [done|].
  destruct (AllModels_index_reported visited (run ops) (Model_ID model))
    as (b & l & Hl & _); [|eauto].
  apply Hall. by apply list_elem_of_fmap_2.
Qed.

(** X14 on the fleet: the model [small], reported by [backend-a] alone,
    can be routed after the listing. *)
Lemma AllModels_lists_routable_witness :
  is_Some (LookupByModel (AllModels fleet_visit (run fleet_ops)).1 "small").
Proof.
  apply (AllModels_lists_routable fleet_ops fleet_visit (model "small")).
  - unfold ranges. vm_compute. symmetry. apply (Permutation_cons_append [_; _]).
  - vm_compute. apply list_elem_of_In. simpl. tauto.
Defined.

(** ** Health changes and session affinity *)

Lemma insert_by_fmap {X : Type} (less : X → X → bool) (f : X → X) x l :
  (∀ a b, less (f a) (f b) = less a b) →
  insert_by less (f x) (f <$> l) = f <$> insert_by less x l.
Proof.
  intros Hf. induction l as [|y l IH]; csimpl; [done|].
  rewrite Hf. destruct (less y x); csimpl; [|done]. by rewrite IH.
Qed.

Lemma sort_Slice_fmap {X : Type} (less : X → X → bool) (f : X → X) l :
  (∀ a b, less (f a) (f b) = less a b) →
  sort_Slice less (f <$> l) = f <$> sort_Slice less l.
Proof.
  intros Hf. induction l as [|x l IH]; csimpl; [done|].
  fold (sort_Slice less (f <$> l)). fold (sort_Slice less l).
  by rewrite IH, insert_by_fmap.
Qed.

Lemma slice_at_fmap {X : Type} (f : X → X) (l : list X) i :
  slice_at (f <$> l) i = match slice_at l i with Ret x => Ret (f x) | Panic => Panic end.
Proof.
  unfold slice_at. destruct (i <? 0); [done|].
  rewrite list_lookup_fmap. by destruct (l !! Z.to_nat i).
Qed.

(** X30.  A session that is served by its preferred backend stays on
    it when the health flag of another backend changes: in a registry
    reached by the registry operations, if the lookup for a non-empty
    session id returns a backend without reporting the session broken,
    it returns the same after [setHealthy] on any other backend. *)
Theorem session_survives_health_change ops id healthy modelID sessionID b :
  sessionID ≠ EmptyString →
  LookupByModelWithSession (run ops) modelID sessionID
  = Ret (Some {| Result_Backend := b; SessionBroken := false |}) →
  ID b ≠ id →
  LookupByModelWithSession (with_health id healthy (run ops)) modelID sessionID
  = Ret (Some {| Result_Backend := b; SessionBroken := false |}).
Proof.
  intros Hs Hl Hne. destruct (well_formed_run ops) as (_ & Hk & _).
  set (g := λ b : Backend, {| ID := ID b; Type_ := Type_ b; BaseURL := BaseURL b;
                              IsHealthy := healthy |}).
  set (F := λ b : Backend, if decide (ID b = id) then g b else b).
  assert (∀ a c, lessID (F a) (F c) = lessID a c) as HF.
  { intros a c. unfold lessID, F. by repeat case_decide. }
  assert (∀ l : list string,
            omap (λ bid, alter g id (backends (run ops)) !! bid) l
            = F <$> omap (λ bid, backends (run ops) !! bid) l) as Hfound.
  { intros l. induction l as [|bid l IH]; [done|].
    change (omap ?f (bid :: l)) with (match f bid with
                                      | Some y => y :: omap f l
                                      | None => omap f l
                                      end).
    rewrite IH. destruct (decide (bid = id)) as [->|Hbid].
    - rewrite lookup_alter_eq.
      destruct (backends (run ops) !! id) as [b0|] eqn:Hb0; csimpl; [|done].
      unfold F at 2. by rewrite (Hk _ _ Hb0), decide_True.
    - rewrite lookup_alter_ne by done.
      destruct (backends (run ops) !! bid) as [b0|] eqn:Hb0; csimpl; [|done].
      unfold F at 2. by rewrite (Hk _ _ Hb0), decide_False. }
  revert Hl. unfold LookupByModelWithSession. cbn [with_health models].
  change (backends (with_health id healthy (run ops)))
    with (alter g id (backends (run ops))).
  destruct (models (run ops) !! modelID) as [[|bid0 rest]|]; [done| |done].
  destruct (String.eqb_spec sessionID EmptyString) as [|_]; [done|].
  rewrite !collect_spec. cbv beta iota zeta.
  rewrite Hfound, (sort_Slice_fmap lessID F) by done.
  set (found := omap (λ bid, backends (run ops) !! bid) (bid0 :: rest)).
  set (all := sort_Slice lessID found).
  assert (len (F <$> all) = len all) as -> by (unfold len; by rewrite length_fmap).
  destruct (len all =? 0); [done|].
  destruct (hashSessionToIndex sessionID (len all)) as [i|]; [|done].
  cbn [mbind outcome_bind]. rewrite slice_at_fmap.
  destruct (slice_at all i) as [preferred|]; [|done].
  cbn [mbind outcome_bind].
  destruct (IsHealthy preferred) eqn:Hh.
  - intros [= <-]. unfold F at 1 2. rewrite decide_False by done. by rewrite Hh.
  - destruct (0 <? len _).
    + destruct (hashSessionToIndex sessionID _) as [j|]; [|done].
      cbn [mbind outcome_bind]. by destruct (slice_at _ j).
    + done.
Qed.

(** X30 on the fleet: [session-123] stays on its backend when
    [backend-c] goes down. *)
Lemma session_survives_health_change_witness :
  LookupByModelWithSession (with_health "backend-c" false (run fleet_ops))
    "test-model" "session-123"
  = Ret (Some {| Result_Backend := newMockBackend "backend-b" true;
                 SessionBroken := false |}).
Proof.
  apply (session_survives_health_change fleet_ops "backend-c" false
           "test-model" "session-123" (newMockBackend "backend-b" true)).
  - discriminate.
  - vm_compute. reflexivity.
  - vm_compute. discriminate.
Defined.

End RegistryOperations.

(** * Byte strings *)

Section ByteStrings.

Import strings.

Lemma chars_app (s1 s2 : string) : chars (s1 ++ s2) = chars s1 ++ chars s2.
Proof. induction s1 as [|c s1 IH]; simpl; [done|]. by rewrite IH. Qed.

Lemma chars_inj (s1 s2 : string) : chars s1 = chars s2 → s1 = s2.
Proof.
  intros H. rewrite <- (string_of_list_ascii_of_string s1),
    <- (string_of_list_ascii_of_string s2). by rewrite H.
Qed.

Lemma string_app_assoc (s1 s2 s3 : string) :
  ((s1 ++ s2) ++ s3 = s1 ++ (s2 ++ s3))%string.
Proof. apply chars_inj. by rewrite !chars_app, (assoc_L (++)). Qed.

Lemma string_app_nil_r (s : string) : (s ++ "" = s)%string.
Proof. apply chars_inj. rewrite chars_app. simpl. by rewrite app_nil_r. Qed.

Lemma chars_rev_app (s1 s2 : string) :
  chars (String.rev_app s1 s2) = reverse (chars s1) ++ chars s2.
Proof.
  revert s2. induction s1 as [|c s1 IH]; intros s2; simpl; [done|].
  rewrite IH, reverse_cons. simpl. by rewrite <- (assoc_L (++)).
Qed.

Lemma chars_rev (s : string) : chars (String.rev s) = reverse (chars s).
Proof. unfold String.rev. rewrite chars_rev_app. simpl. by rewrite app_nil_r. Qed.

(** ** [TrimSpace] *)

(** Trimming on the left keeps a suffix, which does not begin with
    ASCII white space. *)
Lemma trimLeftWith_suffix sp2 sp3 (s : string) :
  ∃ p, s = (p ++ trimLeftWith sp2 sp3 s)%string
       ∧ ∀ c t, trimLeftWith sp2 sp3 s = String c t → asciiSpace c = false.
Proof.
  assert (∀ n s, (String.length s ≤ n)%nat →
            ∃ p, s = (p ++ trimLeftWith sp2 sp3 s)%string
                 ∧ ∀ c t, trimLeftWith sp2 sp3 s = String c t → asciiSpace c = false)
    as H; [|by apply (H (String.length s))].
  clear s. induction n as [|n IH]; intros s Hn.
  { destruct s; simpl in Hn; [|lia]. by exists EmptyString. }
  destruct s as [|c1 s1]; [by exists EmptyString|].
  cbn [String.length] in Hn. cbn [trimLeftWith].
  destruct (asciiSpace c1) eqn:H1.
  { destruct (IH s1) as (p & Hp & Hhead); [lia|].
    exists (String c1 p). split; [by rewrite Hp at 1|done]. }
  assert (∃ p, String c1 s1 = (p ++ String c1 s1)%string
               ∧ ∀ c t, String c1 s1 = String c t → asciiSpace c = false) as Hsame.
  { exists EmptyString. split; [done|]. by intros c t [= <- _]. }
  destruct s1 as [|c2 s2]; [done|]. cbn [String.length] in Hn.
  destruct (sp2 c1 c2).
  { destruct (IH s2) as (p & Hp & Hhead); [lia|].
    exists (String c1 (String c2 p)). split; [by rewrite Hp at 1|done]. }
  destruct s2 as [|c3 s3]; [done|]. cbn [String.length] in Hn.
  destruct (sp3 c1 c2 c3); [|done].
  destruct (IH s3) as (p & Hp & Hhead); [lia|].
  exists (String c1 (String c2 (String c3 p))). split; [by rewrite Hp at 1|done].
Qed.

(** A first byte that is no white space, alone or with the bytes that
    follow, stops the trimming. *)
Lemma trimLeftWith_stop sp2 sp3 c (s : string) :
  asciiSpace c = false → (∀ c2, sp2 c c2 = false) → (∀ c2 c3, sp3 c c2 c3 = false) →
  trimLeftWith sp2 sp3 (String c s) = String c s.
Proof.
  intros H1 H2 H3. cbn [trimLeftWith]. rewrite H1.
  destruct s as [|c2 s2]; [done|]. rewrite H2.
  destruct s2 as [|c3 s3]; [done|]. by rewrite H3.
Qed.

Lemma trimLeftWith_space sp2 sp3 c (s : string) :
  asciiSpace c = true → trimLeftWith sp2 sp3 (String c s) = trimLeftWith sp2 sp3 s.
Proof. intros H. cbn [trimLeftWith]. by rewrite H. Qed.

(** What [TrimSpace] returns does not end with ASCII white space. *)
Lemma TrimSpace_last (s t : string) c :
  TrimSpace s = (t ++ String c "")%string → asciiSpace c = false.
Proof.
  unfold TrimSpace, TrimRightSpace. intros H.
  set (sp2 := λ c2 c1, space2 c1 c2) in H. set (sp3 := λ c3 c2 c1, space3 c1 c2 c3) in H.
  destruct (trimLeftWith_suffix sp2 sp3 (String.rev (TrimLeftSpace s))) as (_ & _ & Hhead).
  apply (f_equal chars) in H. rewrite chars_rev, chars_app in H. simpl in H.
  apply (f_equal reverse) in H. rewrite reverse_involutive, reverse_app in H.
  simpl in H. destruct (trimLeftWith sp2 sp3 _) as [|c' t'] eqn:E; [done|].
  simpl in H. injection H as -> _. by eapply Hhead.
Qed.

(** The bytes of a line without its line feed that [TrimSpace] keeps
    are bytes of the line. *)
Lemma TrimSpace_line (x : string) :
  newline ∉ chars x → newline ∉ chars (TrimSpace (x ++ String newline "")).
Proof.
  intros Hx. unfold TrimSpace, TrimRightSpace.
  set (line := (x ++ String newline "")%string).
  set (sp2 := λ c2 c1, space2 c1 c2). set (sp3 := λ c3 c2 c1, space3 c1 c2 c3).
  destruct (trimLeftWith_suffix space2 space3 line) as (p1 & H1 & _).
  fold (TrimLeftSpace line) in H1. set (t1 := TrimLeftSpace line) in *.
  destruct (trimLeftWith_suffix sp2 sp3 (String.rev t1)) as (p2 & H2 & Hhead).
  set (t2 := trimLeftWith sp2 sp3 (String.rev t1)) in *.
  rewrite chars_rev, elem_of_reverse.
  apply (f_equal chars) in H1, H2.
  unfold line in H1. rewrite !chars_app in H1. rewrite chars_rev, chars_app in H2.
  simpl in H1. intros Hin.
  destruct (chars t1) as [|c0 l0] eqn:Ht1 using rev_ind.
  { simpl in H2. symmetry in H2. apply app_eq_nil in H2 as [_ H2].
    rewrite H2 in Hin. by apply elem_of_nil in Hin. }
  rewrite (assoc_L (++)) in H1. apply app_inj_tail in H1 as [H1 <-].
  rewrite reverse_snoc in H2.
  destruct (chars p2) as [|c p] eqn:Hp2.
  - simpl in H2. destruct t2 as [|c t]; [done|]. simpl in H2. injection H2 as <- _.
    by specialize (Hhead _ _ eq_refl).
  - simpl in H2. injection H2 as _ H2.
    apply Hx. rewrite H1. apply elem_of_app. right.
    apply elem_of_reverse. rewrite H2. apply elem_of_app. by right.
Qed.

Lemma HasPrefix_app (s p : string) :
  HasPrefix s p = true → s = (p ++ dropBytes (String.length p) s)%string.
Proof.
  revert s. induction p as [|c p IH]; intros s; simpl; [done|].
  destruct s as [|c' s]; [done|].
  intros [->%Ascii.eqb_eq Hp]%andb_true_iff. apply IH in Hp.
  cbn [String.length dropBytes]. by rewrite Hp at 1.
Qed.

Lemma HasPrefix_same (p s : string) : HasPrefix (p ++ s) p = true.
Proof.
  induction p as [|c p IH].
  - by destruct s.
  - change (String c p ++ s)%string with (String c (p ++ s)).
    cbn [HasPrefix]. by rewrite Ascii.eqb_refl, IH.
Qed.

(** [reader.ReadString] returns lines that end with the only line feed
    they hold. *)
Lemma readStrings_lines (cur s : string) :
  newline ∉ chars cur →
  Forall (λ line, ∃ x, line = (x ++ String newline "")%string ∧ newline ∉ chars x)
         (fst (readStrings cur s)).
Proof.
  revert cur. induction s as [|c s IH]; intros cur Hcur; simpl; [constructor|].
  destruct (Ascii.eqb_spec c newline) as [->|Hc].
  - specialize (IH EmptyString).
    destruct (readStrings EmptyString s) as [lines rest]. simpl in *.
    constructor; [eauto|]. apply IH. by intros ?%elem_of_nil.
  - apply IH. rewrite chars_app. simpl.
    intros [?|?%list_elem_of_singleton]%elem_of_app; [done|]. congruence.
Qed.

(** A payload the producer sends is not empty and holds no line feed. *)
Lemma payload_of_line (line x : string) :
  line = (x ++ String newline "")%string → newline ∉ chars x →
  HasPrefix (TrimSpace line) "data: " = true →
  TrimPrefix (TrimSpace line) "data: " ≠ EmptyString
  ∧ newline ∉ chars (TrimPrefix (TrimSpace line) "data: ").
Proof.
  intros -> Hx Hp. unfold TrimPrefix. rewrite Hp.
  pose proof (TrimSpace_line x Hx) as Hnl.
  pose proof (HasPrefix_app _ _ Hp) as Heq.
  set (data := dropBytes _ _) in *. split.
  - intros Hd. rewrite Hd in Heq.
    by pose proof (TrimSpace_last _ "data:" " " Heq).
  - rewrite Heq, chars_app in Hnl. intros Hin. apply Hnl, elem_of_app. by right.
Qed.

End ByteStrings.

(** * The payloads of the stream producer *)

Section Payloads.

Import strings Backends.

Lemma produce_payloads ctx i lines rest ending :
  Forall (λ line, ∃ x, line = (x ++ String newline "")%string ∧ newline ∉ chars x) lines →
  Forall (λ e, Done e = false →
               Err e = None ∧ Data e ≠ EmptyString ∧ Data e ≠ "[DONE]"%string
               ∧ newline ∉ chars (Data e))
         (produce ctx i lines rest ending).
Proof.
  intros Hlines. revert i.
  induction Hlines as [|line lines (x & Hline & Hx) _ IH]; intros i; cbn [produce].
  - destruct (ctx_Done ctx i); [by repeat constructor|].
    destruct ending; by repeat constructor.
  - destruct (ctx_Done ctx i); [by repeat constructor|].
    destruct (String.eqb_spec (TrimSpace line) "") as [|_]; cbn [orb]; [apply IH|].
    destruct (HasPrefix (TrimSpace line) "data: ") eqn:Hp; cbn [negb]; [|apply IH].
    destruct (payload_of_line line x Hline Hx Hp) as [Hne Hnl].
    destruct (String.eqb_spec (TrimPrefix (TrimSpace line) "data: ") "[DONE]") as [|Hd].
    + by repeat constructor.
    + constructor; [|apply IH]. by intros _.
Qed.

(** X15.  Whatever the upstream sends, an event of the stream that is
    not terminal carries no error, and its data is not empty, is not
    [[DONE]] and holds no line feed: written as [data: <data>] and a
    blank line it is one SSE event. *)
Theorem producer_payloads ctx resp :
  Forall (λ e, Done e = false →
               Err e = None ∧ Data e ≠ EmptyString ∧ Data e ≠ "[DONE]"%string
               ∧ newline ∉ chars (Data e))
         (events_of ctx resp).
Proof.
  unfold events_of.
  pose proof (readStrings_lines EmptyString (Body resp)) as Hlines.
  destruct (readStrings EmptyString (Body resp)) as [lines rest].
  apply produce_payloads, Hlines. by intros ?%elem_of_nil.
Qed.

End Payloads.
(** * What the relay writes *)

Section RelayBody.

Import strings Streaming Backends Router Wire Scenario Fixtures.

Lemma relayed_cons event events :
  relayed (event :: events)
  = match Err event with
    | Some _ => []
    | None =>
      if Done event then []
      else if String.eqb (Data event) "" then relayed events
           else Data event :: relayed events
    end.
Proof.
  unfold relayed. cbn [takeWhile].
  destruct (Err event); [done|]. destruct (Done event); [done|].
  cbn [negb fmap list_fmap List.filter]. by destruct (String.eqb _ _).
Qed.

Lemma write_body item w :
  body (fst (write item w))
  = if snd (write item w) then body w else body w ++ [item].
Proof. unfold write. by destruct (faults w) as [|[] rest]. Qed.

Lemma write_faults item w :
  faults (fst (write item w)) = tail (faults w).
Proof. unfold write. by destruct (faults w) as [|[] rest]. Qed.

Lemma write_failed item w : snd (write item w) = default false (head (faults w)).
Proof. unfold write. by destruct (faults w) as [|[] rest]. Qed.

(** The loop of [handleStream] writes a prefix of the relayed data,
    all of it when no write fails, and leaves either without calling
    [WriteDone] or right after calling it. *)
Lemma handleStream_loop_writes events sse :
  ∃ n sse0,
    body sse0 = body sse ++ (Text ∘ data_line <$> take n (relayed events))
    ∧ (faults sse = [] → faults sse0 = [] ∧ take n (relayed events) = relayed events)
    ∧ (handleStream_loop events sse = (sse0, false)
       ∨ handleStream_loop events sse = (fst (WriteDone sse0), true)).
Proof.
  revert sse. induction events as [|event events IH]; intros sse.
  { exists O, sse. split_and!; [by rewrite app_nil_r|done|by left]. }
  rewrite relayed_cons. cbn [handleStream_loop].
  destruct (Err event).
  { exists O, sse. split_and!; [by rewrite app_nil_r|done|by left]. }
  destruct (Done event).
  { exists O, sse. split_and!; [by rewrite app_nil_r|done|by right]. }
  destruct (String.eqb (Data event) ""); cbn [negb]; [apply IH|].
  unfold WriteData.
  pose proof (write_body (Text (data_line (Data event))) sse) as Hbody.
  pose proof (write_faults (Text (data_line (Data event))) sse) as Hfaults.
  pose proof (write_failed (Text (data_line (Data event))) sse) as Hfailed.
  destruct (write (Text (data_line (Data event))) sse) as [sse1 failed].
  cbn [fst snd] in *. destruct failed.
  - exists O, sse1. split_and!; [by rewrite app_nil_r| |by left].
    intros Hf. by rewrite Hf in Hfailed.
  - destruct (IH sse1) as (n & sse0 & Hb & Hf & Hloop).
    exists (S n), sse0. split_and!; [|intros Hf0|done].
    + rewrite Hb, Hbody. cbn [take fmap list_fmap]. by rewrite <- (assoc_L (++)).
    + rewrite Hf0 in Hfaults. destruct (Hf Hfaults) as [? Htake].
      split; [done|]. cbn [take]. by rewrite Htake.
Qed.

Lemma handleStream_writes w events :
  canFlush w = true →
  ∃ n sse0,
    handleStream w (inr events) = fst (WriteDone sse0)
    ∧ body sse0 = body w ++ (Text ∘ data_line <$> take n (relayed events))
    ∧ (faults w = [] → faults sse0 = [] ∧ take n (relayed events) = relayed events).
Proof.
  intros Hflush. unfold handleStream, NewWriter. rewrite Hflush.
  destruct (handleStream_loop_writes events (WriteHeaders w))
    as (n & sse0 & Hb & Hf & [-> | ->]); exists n, sse0; by split_and!.
Qed.

(** X16.  On a connection that can flush and whose writes succeed,
    [handleStream] writes the data of the events that precede the first
    terminal or error event, each as one data line and in order,
    leaving out empty data, and then the terminator: also when the
    stream ended with an error, which the client is not told. *)
Theorem handleStream_body w events :
  canFlush w = true → faults w = [] →
  body (handleStream w (inr events))
  = body w ++ (Text ∘ data_line <$> relayed events) ++ [terminator].
Proof.
  intros Hflush Hfaults.
  destruct (handleStream_writes w events Hflush) as (n & sse0 & -> & Hb & Hf).
  destruct (Hf Hfaults) as [Hf0 Htake].
  unfold WriteDone, WriteData. rewrite write_body, write_failed, Hf0. cbn [head default].
  by rewrite Hb, Htake, <- (assoc_L (++)).
Qed.

(** X16 for a chunk followed by an error: the client receives the
    chunk and the terminator. *)
Lemma handleStream_body_witness :
  body (handleStream client (inr chunk_then_error))
  = [Text (data_line "{x:1}"); terminator].
Proof.
  apply (handleStream_body client chunk_then_error); reflexivity.
Defined.

(** X17.  Whatever writes fail, [handleStream] adds to the body a
    prefix of the relayed data lines, in order, and then at most one
    terminator: after a failed write no further data is written, and
    nothing follows the terminator. *)
Theorem handleStream_body_prefix w events :
  canFlush w = true →
  ∃ n (done : bool),
    body (handleStream w (inr events))
    = body w ++ (Text ∘ data_line <$> take n (relayed events))
        ++ (if done then [terminator] else []).
Proof.
  intros Hflush.
  destruct (handleStream_writes w events Hflush) as (n & sse0 & -> & Hb & _).
  unfold WriteDone, WriteData. rewrite write_body, Hb.
  destruct (snd _).
  - exists n, false. by rewrite app_nil_r.
  - exists n, true. by rewrite <- (assoc_L (++)).
Qed.

(** X17 on a connection whose second write fails. *)
Lemma handleStream_body_prefix_witness :
  ∃ n (done : bool),
    body (handleStream flaky_client (inr [data_event "a"; data_event "b"; done_event]))
    = body flaky_client
        ++ (Text ∘ data_line <$> take n (relayed [data_event "a"; data_event "b"; done_event]))
        ++ (if done then [terminator] else []).
Proof.
  apply (handleStream_body_prefix flaky_client
           [data_event "a"; data_event "b"; done_event]).
  reflexivity.
Defined.

(** ** Reading back what the relay wrote *)

Lemma readStrings_app (cur x s : string) :
  newline ∉ chars x →
  readStrings cur (x ++ s) = readStrings (cur ++ x) s.
Proof.
  revert cur. induction x as [|c x IH]; intros cur Hx.
  { by rewrite string_app_nil_r. }
  change (String c x ++ s)%string with (String c (x ++ s)).
  cbn [readStrings]. simpl in Hx.
  destruct (Ascii.eqb_spec c newline) as [->|_]; [by destruct Hx; left|].
  rewrite IH by (intros ?; apply Hx; by right).
  by rewrite string_app_assoc.
Qed.

Lemma readStrings_data_line (d s : string) :
  newline ∉ chars d →
  readStrings EmptyString (data_line d ++ s)
  = (("data: " ++ d ++ nl)%string :: nl :: fst (readStrings EmptyString s),
     snd (readStrings EmptyString s)).
Proof.
  intros Hd. unfold data_line.
  assert ((("data: " ++ d ++ nl ++ nl) ++ s)%string
          = (("data: " ++ d) ++ String newline (String newline s))%string) as ->.
  { apply chars_inj. rewrite ?chars_app. simpl. rewrite ?chars_app. simpl.
    by rewrite <- ?(assoc_L (++)). }
  rewrite readStrings_app.
  - cbn [readStrings]. rewrite Ascii.eqb_refl.
    destruct (readStrings EmptyString s) as [lines rest]. cbn [fst snd].
    reflexivity.
  - rewrite chars_app. simpl. intros Hin.
    repeat (apply elem_of_cons in Hin as [Hin|Hin]; [done|]). done.
Qed.

Lemma last_byte_Some (d : string) c :
  last_byte d = Some c → ∃ d', d = (d' ++ String c "")%string.
Proof.
  induction d as [|c0 d IH]; [done|]. cbn [last_byte].
  destruct d as [|c1 d].
  - intros [= ->]. by exists EmptyString.
  - intros (d' & Hd')%IH. exists (String c0 d'). by rewrite Hd'.
Qed.

Lemma space2_ascii c1 c : (byte c < 128)%N → space2 c1 c = false.
Proof.
  intros Hc. unfold space2.
  destruct (N.eqb_spec (byte c) 133); [lia|].
  destruct (N.eqb_spec (byte c) 160); [lia|].
  apply andb_false_r.
Qed.

Lemma space3_ascii c1 c2 c : (byte c < 128)%N → space3 c1 c2 c = false.
Proof.
  intros Hc. unfold space3.
  destruct (N.eqb_spec (byte c) 128); [lia|].
  destruct (N.eqb_spec (byte c) 168); [lia|].
  destruct (N.eqb_spec (byte c) 169); [lia|].
  destruct (N.eqb_spec (byte c) 175); [lia|].
  destruct (N.eqb_spec (byte c) 159); [lia|].
  destruct (N.leb_spec 128 (byte c)); [lia|].
  by rewrite ?andb_false_r, ?orb_false_r.
Qed.

(** The line the relay writes for a plain payload trims to [data: ]
    and the payload. *)
Lemma TrimSpace_data_line (d : string) :
  plain d = true → TrimSpace ("data: " ++ d ++ nl) = ("data: " ++ d)%string.
Proof.
  intros [[_ Hlast]%andb_true_iff _]%andb_true_iff.
  destruct (last_byte d) as [c|] eqn:Hc; [|done].
  apply andb_true_iff in Hlast as [Hascii%N.ltb_lt Hsp%negb_true_iff].
  apply last_byte_Some in Hc as (d' & ->).
  unfold TrimSpace.
  assert (TrimLeftSpace ("data: " ++ (d' ++ String c "") ++ nl)
          = ("data: " ++ (d' ++ String c "") ++ nl)%string) as ->.
  { unfold TrimLeftSpace. by apply trimLeftWith_stop. }
  unfold TrimRightSpace.
  set (r := string_of_list_ascii (reverse (chars "data: " ++ chars d'))).
  assert (String.rev ("data: " ++ (d' ++ String c "") ++ nl)
          = String newline (String c r)) as ->.
  { apply chars_inj. rewrite chars_rev, !chars_app. unfold r. simpl.
    rewrite list_ascii_of_string_of_list_ascii.
    rewrite !reverse_cons, !reverse_app. simpl.
    rewrite <- ?(assoc_L (++)). by simpl. }
  rewrite trimLeftWith_space by done.
  rewrite trimLeftWith_stop; [|done|intros; by apply space2_ascii
                              |intros; by apply space3_ascii].
  apply chars_inj. rewrite chars_rev, !chars_app. unfold r. simpl.
  rewrite list_ascii_of_string_of_list_ascii, reverse_cons, reverse_involutive.
  by rewrite <- ?(assoc_L (++)).
Qed.

Lemma bytes_data_lines (ds : list string) :
  bytes ((Text ∘ data_line <$> ds) ++ [terminator])
  = foldr (λ d acc, data_line d ++ acc)%string (data_line "[DONE]") ds.
Proof.
  induction ds as [|d ds IH]; cbn [fmap list_fmap app bytes foldr compose].
  - unfold terminator. cbn [bytes]. apply string_app_nil_r.
  - by rewrite <- IH.
Qed.

Lemma plain_one_line (d : string) : plain d = true → newline ∉ chars d.
Proof.
  intros [[Hline _]%andb_true_iff _]%andb_true_iff Hin.
  apply list_elem_of_In in Hin.
  pose proof (proj1 (forallb_forall _ _) Hline _ Hin) as Hc.
  cbv beta in Hc. by rewrite Ascii.eqb_refl in Hc.
Qed.

(** The producer reads the data lines of plain payloads, closed by the
    terminator, as the payloads and the terminal [[DONE]] event. *)
Lemma produce_data_lines ctx (ds : list string) ending i :
  (∀ j, ctx_Done ctx j = false) →
  forallb plain ds = true →
  let B := foldr (λ d acc, data_line d ++ acc)%string (data_line "[DONE]") ds in
  produce ctx i (fst (readStrings EmptyString B)) (snd (readStrings EmptyString B)) ending
  = (data_event <$> ds) ++ [done_event].
Proof.
  intros Hctx Hds. cbv zeta. revert i.
  induction ds as [|d ds IH]; intros i; cbn [foldr].
  - change (fst (readStrings "" (data_line "[DONE]")))
      with ["data: [DONE]" ++ nl; nl]%string.
    cbn [produce]. rewrite Hctx. reflexivity.
  - cbn [forallb] in Hds. apply andb_true_iff in Hds as [Hd Hds].
    rewrite readStrings_data_line by by apply plain_one_line.
    cbn [fst snd produce]. rewrite !Hctx.
    rewrite TrimSpace_data_line by done.
    change (String.eqb ("data: " ++ d) "") with false.
    unfold TrimPrefix. rewrite !HasPrefix_same.
    change (dropBytes (String.length "data: ") ("data: " ++ d)) with d.
    cbn [orb negb].
    assert (String.eqb d "[DONE]" = false) as ->.
    { apply andb_true_iff in Hd as [_ Hd]. by apply negb_true_iff in Hd. }
    change (TrimSpace nl) with EmptyString. cbn [String.eqb orb].
    by rewrite IH.
Qed.

(** X18.  What [handleStream] wrote for a stream of plain payloads,
    read as the body of an upstream response by the stream producer,
    gives the relayed payloads again, in order, and the terminal
    [[DONE]] event: a relay behind a relay passes the same stream on. *)
Theorem relay_read_back w events ctx resp :
  canFlush w = true → faults w = [] → body w = [] →
  (∀ j, ctx_Done ctx j = false) →
  forallb plain (relayed events) = true →
  Body resp = bytes (body (handleStream w (inr events))) →
  events_of ctx resp = (data_event <$> relayed events) ++ [done_event].
Proof.
  intros Hflush Hfaults Hbody Hctx Hplain Hresp.
  destruct (handleStream_writes w events Hflush) as (n & sse0 & Hw & Hb & Hf).
  destruct (Hf Hfaults) as [Hf0 Htake].
  rewrite Hw in Hresp. unfold WriteDone, WriteData in Hresp.
  rewrite write_body, write_failed, Hf0, Hb, Htake, Hbody in Hresp.
  cbn [head default app] in Hresp.
  change [Text (data_line "[DONE]")] with [terminator] in Hresp.
  rewrite bytes_data_lines in Hresp.
  unfold events_of. rewrite Hresp.
  pose proof (produce_data_lines ctx (relayed events) (BodyEnd resp) O Hctx Hplain) as H.
  cbv zeta in H. by destruct (readStrings _ _).
Qed.

(** X18 for a chunk followed by an error. *)
Lemma relay_read_back_witness :
  events_of background
    (ok_response (bytes (body (handleStream client (inr chunk_then_error)))) EOF)
  = [data_event "{x:1}"; done_event].
Proof.
  apply (relay_read_back client chunk_then_error background
           (ok_response (bytes (body (handleStream client (inr chunk_then_error)))) EOF)).
  - reflexivity.
  - reflexivity.
  - reflexivity.
  - intros j. reflexivity.
  - vm_compute. reflexivity.
  - reflexivity.
Defined.

(** ** The older relay loop *)

(** The producer closes every stream with [[DONE]] or with an event
    that carries no data. *)
Lemma produce_terminal ctx i lines rest ending :
  ∃ pre t,
    produce ctx i lines rest ending = pre ++ [t]
    ∧ Forall (λ e, Done e = false ∧ Err e = None ∧ Data e ≠ "[DONE]"%string) pre
    ∧ (t = done_event ∨ (Data t = EmptyString ∧ Done t = true)).
Proof.
  revert i. induction lines as [|line lines IH]; intros i; cbn [produce].
  - destruct (ctx_Done ctx i); [eexists [], _; split_and!; [done..|by right]|].
    destruct ending; eexists [], _; (split_and!; [done..|by right]).
  - destruct (ctx_Done ctx i); [eexists [], _; split_and!; [done..|by right]|].
    destruct (_ || _); [apply IH|].
    destruct (String.eqb_spec (TrimPrefix (TrimSpace line) "data: ") "[DONE]")
      as [Hd|Hd].
    + eexists [], _. split_and!; [done..|]. left. by rewrite Hd.
    + destruct (IH (S i)) as (pre & t & -> & Hpre & Ht).
      eexists (_ :: pre), t. split_and!; [done| |done]. by constructor.
Qed.

Lemma relayed_terminal pre t :
  Forall (λ e, Done e = false ∧ Err e = None ∧ Data e ≠ "[DONE]"%string) pre →
  (t = done_event ∨ (Data t = EmptyString ∧ Done t = true)) →
  relayed (pre ++ [t])
  = List.filter (λ data, negb (String.eqb data "")) (Data <$> pre)
  ∧ existsb is_DONE (Data <$> pre ++ [t]) = is_DONE (Data t).
Proof.
  intros Hpre Ht. induction Hpre as [|e pre (Hd & He & Hn) _ [IH1 IH2]].
  - cbn [app fmap list_fmap existsb]. rewrite orb_false_r. split; [|done].
    rewrite relayed_cons.
    destruct Ht as [->|[Hdata Hdone]]; [done|]. rewrite Hdone. by destruct (Err t).
  - change ((e :: pre) ++ [t]) with (e :: (pre ++ [t])).
    rewrite relayed_cons, He, Hd, IH1. cbn [fmap list_fmap List.filter existsb].
    rewrite IH2. split.
    + by destruct (String.eqb (Data e) "").
    + unfold is_DONE at 1. by destruct (String.eqb_spec (Data e) "[DONE]").
Qed.

Lemma legacy_loop_body pre t sse :
  faults sse = [] →
  Forall (λ e, Done e = false ∧ Err e = None ∧ Data e ≠ "[DONE]"%string) pre →
  (t = done_event ∨ (Data t = EmptyString ∧ Done t = true)) →
  body (handleChatCompletionsStream_loop (pre ++ [t]) sse)
  = body sse
      ++ (Text ∘ data_line <$> List.filter (λ data, negb (String.eqb data ""))
                                           (Data <$> pre))
      ++ (if is_DONE (Data t) then [terminator] else []).
Proof.
  intros Hf Hpre Ht. revert sse Hf.
  induction Hpre as [|e pre (Hd & He & Hn) _ IH]; intros sse Hf.
  - cbn [app handleChatCompletionsStream_loop fmap list_fmap List.filter].
    destruct Ht as [->|[Hdata Hdone]].
    + cbn. unfold WriteDone, WriteData. by rewrite write_body, write_failed, Hf.
    + rewrite Hdata, Hdone. cbn. rewrite app_nil_r. by destruct (Err t).
  - change ((e :: pre) ++ [t]) with (e :: (pre ++ [t])).
    cbn [handleChatCompletionsStream_loop fmap list_fmap List.filter].
    rewrite He, Hd. cbn [andb].
    destruct (String.eqb (Data e) ""); cbn [negb]; [by apply IH|].
    unfold WriteData.
    pose proof (write_body (Text (data_line (Data e))) sse) as Hbody.
    pose proof (write_faults (Text (data_line (Data e))) sse) as Hfaults.
    pose proof (write_failed (Text (data_line (Data e))) sse) as Hfailed.
    rewrite Hf in Hfaults, Hfailed. cbn in Hfaults, Hfailed.
    destruct (write (Text (data_line (Data e))) sse) as [sse1 failed].
    cbn [fst snd] in *. subst failed.
    rewrite IH by done. rewrite Hbody. cbn [fmap list_fmap compose].
    by rewrite <- (assoc_L (++)).
Qed.

(** X19.  On a connection that can flush and whose writes succeed,
    the relay loop of the older [handleChatCompletionsStream] writes
    the data lines that [handleStream] writes for the stream of a
    generic backend, and the terminator only when the upstream sent
    [[DONE]]. *)
Theorem legacy_relay_body w ctx resp :
  canFlush w = true → faults w = [] →
  body (handleChatCompletionsStream w (inr (events_of ctx resp)))
  = body w ++ (Text ∘ data_line <$> relayed (events_of ctx resp))
      ++ (if existsb is_DONE (Data <$> events_of ctx resp) then [terminator] else []).
Proof.
  intros Hflush Hfaults. unfold handleChatCompletionsStream, NewWriter. rewrite Hflush.
  unfold events_of. destruct (readStrings _ _) as [lines rest].
  destruct (produce_terminal ctx O lines rest (BodyEnd resp))
    as (pre & t & -> & Hpre & Ht).
  destruct (relayed_terminal pre t Hpre Ht) as [-> Hdone].
  rewrite Hdone.
  by rewrite (legacy_loop_body pre t (WriteHeaders w) Hfaults Hpre Ht).
Qed.

(** X19 for the upstream that closes without [[DONE]]. *)
Lemma legacy_relay_body_witness :
  body (handleChatCompletionsStream client (inr (events_of background one_chunk_then_EOF)))
  = [Text (data_line "{x:1}")].
Proof.
  rewrite (legacy_relay_body client background one_chunk_then_EOF);
    [vm_compute|..]; reflexivity.
Defined.

End RelayBody.

(** * The handlers of the router *)

Section RouterHandlers.

Import Streaming Backends Registry Inventory Router Handlers Scenario Fixtures.

(** ** Discovery events *)

Lemma run_snoc ops o : run (ops ++ [o]) = step (run ops) o.
Proof. unfold run. by rewrite foldl_snoc. Qed.

Lemma watchEvents_run ctx i events ops :
  ∃ ops', watchEvents ctx i events (run ops) = run (ops ++ ops').
Proof.
  revert i ops. induction events as [|[event fetch] events IH]; intros i ops;
    cbn [watchEvents].
  - exists []. rewrite app_nil_r. by destruct (ctx_Done ctx i).
  - destruct (ctx_Done ctx i); [exists []; by rewrite app_nil_r|].
    assert (∃ o, (if String.eqb (Event_Type event) EventAdded then
                    Register (Event_Backend event) fetch (run ops)
                  else if String.eqb (Event_Type event) EventRemoved then
                    Unregister (ID (Event_Backend event)) (run ops)
                  else if String.eqb (Event_Type event) EventUpdated then
                    fst (RefreshModels (ID (Event_Backend event)) fetch (run ops))
                  else run ops) = run (ops ++ o)) as [o ->].
    { destruct (String.eqb _ EventAdded);
        [exists [OpRegister (Event_Backend event) fetch]; by rewrite run_snoc|].
      destruct (String.eqb _ EventRemoved);
        [exists [OpUnregister (ID (Event_Backend event))]; by rewrite run_snoc|].
      destruct (String.eqb _ EventUpdated);
        [exists [OpRefreshModels (ID (Event_Backend event)) fetch]; by rewrite run_snoc|].
      exists []. by rewrite app_nil_r. }
    destruct (IH (S i) (ops ++ o)) as [ops' ->].
    exists (o ++ ops'). by rewrite (assoc_L (++)).
Qed.

(** X20.  Whatever events a discoverer delivers, and whenever the
    context is cancelled, [watchEvents] leaves a registry that is
    sound, keeps every handle under its own id and holds no empty or
    duplicated sequence, when it started from one reached by the
    registry operations. *)
Theorem watchEvents_well_formed ctx i events ops :
  well_formed (watchEvents ctx i events (run ops)).
Proof.
  destruct (watchEvents_run ctx i events ops) as [ops' ->]. apply well_formed_run.
Qed.

(** ** [handleHealth] *)

Lemma count_healthy (bs : list Backend) (acc : Z) :
  foldl (λ healthy b, if IsHealthy b then healthy + 1 else healthy) acc bs
  = acc + len (List.filter IsHealthy bs).
Proof.
  revert acc. unfold len.
  induction bs as [|b bs IH]; intros acc; simpl; [lia|].
  rewrite IH. destruct (IsHealthy b); simpl length; lia.
Qed.

(** X21.  [handleHealth] reports as many backends as are registered
    and not more healthy ones; the status is [degraded] exactly when
    backends are registered and none of them is healthy, and [ok]
    otherwise. *)
Theorem handleHealth_status {Logger Discoverer : Type} bs
    (r : Handlers.Router (Logger := Logger) (Discoverer := Discoverer)) :
  ranges (registry r) bs →
  BackendsTotal (health_status bs r) = Count (registry r)
  ∧ 0 ≤ BackendsHealthy (health_status bs r) ≤ BackendsTotal (health_status bs r)
  ∧ Health_Status (health_status bs r)
    = if bool_decide (backends (registry r) ≠ ∅
                      ∧ map_Forall (λ _ b, IsHealthy b = false) (backends (registry r)))
      then "degraded"%string else "ok"%string.
Proof.
  intros Hrange. unfold health_status, Count.
  cbn [BackendsTotal BackendsHealthy Health_Status].
  rewrite count_healthy, Z.add_0_l.
  assert (len bs = Z.of_nat (size (backends (registry r)))) as Hlen.
  { unfold len. rewrite Hrange, length_fmap. by rewrite length_map_to_list. }
  pose proof (len_filter_le IsHealthy bs) as Hle.
  assert (0 ≤ len (List.filter IsHealthy bs)) as H0 by (unfold len; lia).
  split_and!; [done|lia|lia|].
  assert (len (List.filter IsHealthy bs) = 0
          ↔ map_Forall (λ _ b, IsHealthy b = false) (backends (registry r))) as Hall.
  { split.
    - intros Hf k b Hkb. destruct (IsHealthy b) eqn:Hb; [|done].
      assert (b ∈ List.filter IsHealthy bs) as Hin.
      { apply list_elem_of_In, filter_In. split; [|done]. apply list_elem_of_In.
        rewrite Hrange. apply list_elem_of_fmap. exists (k, b).
        split; [done|]. by apply elem_of_map_to_list. }
      destruct (List.filter IsHealthy bs); [by apply elem_of_nil in Hin|].
      unfold len in Hf. simpl in Hf. lia.
    - intros Hall. destruct (List.filter IsHealthy bs) as [|b l] eqn:Hf; [done|].
      assert (In b (List.filter IsHealthy bs)) as Hin by (rewrite Hf; by left).
      apply filter_In in Hin as [Hin Hb]. apply list_elem_of_In in Hin.
      rewrite Hrange in Hin.
      apply list_elem_of_fmap in Hin as ([k b'] & -> & Hkb%elem_of_map_to_list).
      cbn [snd] in Hb. rewrite (Hall _ _ Hkb) in Hb. done. }
  assert (0 < len bs ↔ backends (registry r) ≠ ∅) as Hne.
  { rewrite Hlen, <- map_size_non_empty_iff. lia. }
  case_bool_decide as Hd.
  - destruct Hd as [Hd1 Hd2]. apply Hne in Hd1. apply Hall in Hd2.
    rewrite Hd2. cbn [Z.eqb andb].
    destruct (Z.ltb_spec 0 (len bs)); [done|lia].
  - destruct (Z.eqb_spec (len (List.filter IsHealthy bs)) 0) as [Hz|_]; [|done].
    destruct (Z.ltb_spec 0 (len bs)) as [Hp|_]; [|done].
    destruct Hd. split; [by apply Hne|by apply Hall].
Qed.

(** X21 on the fleet. *)
Lemma handleHealth_status_witness :
  BackendsTotal (health_status (map_to_list (backends fleet)).*2 affine) = Count fleet
  ∧ 0 ≤ BackendsHealthy (health_status (map_to_list (backends fleet)).*2 affine)
      ≤ BackendsTotal (health_status (map_to_list (backends fleet)).*2 affine)
  ∧ Health_Status (health_status (map_to_list (backends fleet)).*2 affine)
    = if bool_decide (backends fleet ≠ ∅
                      ∧ map_Forall (λ _ b, IsHealthy b = false) (backends fleet))
      then "degraded"%string else "ok"%string.
Proof.
  apply (handleHealth_status (map_to_list (backends fleet)).*2 affine).
  unfold ranges. reflexivity.
Defined.

(** ** [handleStream]: status and headers *)

Lemma write_frame item w :
  Header (fst (write item w)) = Header w
  ∧ status (fst (write item w)) = status w.
Proof. unfold write. by destruct (faults w) as [|[] rest]. Qed.

Lemma handleStream_loop_frame events sse :
  Header (fst (handleStream_loop events sse)) = Header sse
  ∧ status (fst (handleStream_loop events sse)) = status sse.
Proof.
  revert sse. induction events as [|event events IH]; intros sse;
    cbn [handleStream_loop]; [done|].
  destruct (Err event); [done|].
  destruct (Done event); [cbn [fst]; unfold WriteDone, WriteData; by apply write_frame|].
  destruct (negb _); [|apply IH].
  unfold WriteData.
  destruct (write_frame (Text (data_line (Data event))) sse) as [Hh Hs].
  destruct (write _ sse) as [sse' failed]. cbn [fst] in *.
  destruct failed; [done|]. destruct (IH sse') as [-> ->]. done.
Qed.

Lemma WriteError_frame code err w k :
  k ≠ "Content-Type"%string →
  Header (WriteError code err w) !! k = Header w !! k.
Proof.
  intros Hk. unfold WriteError.
  destruct (write_frame (JSON err)
              (WriteHeader code (Header_Set "Content-Type" "application/json" w)))
    as [-> _].
  cbn [WriteHeader Header_Set Header]. by rewrite lookup_insert_ne.
Qed.

Lemma handleStream_frame w stream k :
  k ∉ ["Content-Type"; "Cache-Control"; "Connection"; "X-Accel-Buffering"]%string →
  Header (handleStream w stream) !! k = Header w !! k.
Proof.
  intros Hk. unfold handleStream, NewWriter.
  assert (k ≠ "Content-Type"%string) as Hct by (intros ->; apply Hk; by left).
  destruct (canFlush w); [|by apply WriteError_frame].
  destruct stream as [err|events]; [by apply WriteError_frame|].
  destruct (handleStream_loop_frame events (WriteHeaders w)) as [Hh _].
  destruct (handleStream_loop events (WriteHeaders w)) as [sse ended]. cbn [fst] in Hh.
  assert (Header sse !! k = Header w !! k) as Hsse.
  { rewrite Hh. unfold WriteHeaders. cbn [Header_Set Header].
    rewrite !lookup_insert_ne; [done|intros <-; apply Hk..].
    - by left.
    - right. by left.
    - right. right. by left.
    - right. right. right. by left. }
  destruct ended; cbn [negb]; [done|].
  unfold WriteDone, WriteData.
  destruct (write_frame (Text (data_line "[DONE]")) sse) as [-> _]. done.
Qed.

(** X22.  [handleStream] answers 500 with a JSON error, and writes no
    terminator, when the connection cannot flush or the stream could
    not be opened; on an opened stream it leaves the status unset and
    announces an event stream. *)
Theorem handleStream_status w stream :
  if match stream with inr _ => canFlush w | inl _ => false end
  then status (handleStream w stream) = status w
       ∧ Header (handleStream w stream) !! "Content-Type"
         = Some "text/event-stream"%string
  else status (handleStream w stream) = Some 500
       ∧ Header (handleStream w stream) !! "Content-Type"
         = Some "application/json"%string
       ∧ terminators (handleStream w stream) = terminators w.
Proof.
  assert (∀ err, status (WriteError 500 err w) = Some 500
                 ∧ Header (WriteError 500 err w) !! "Content-Type"
                   = Some "application/json"%string
                 ∧ terminators (WriteError 500 err w) = terminators w) as Herr.
  { intros err. unfold WriteError.
    pose proof (terminators_write (JSON err)
                  (WriteHeader 500 (Header_Set "Content-Type" "application/json" w)))
      as Ht.
    destruct (write_frame (JSON err)
                (WriteHeader 500 (Header_Set "Content-Type" "application/json" w)))
      as [-> ->].
    split_and!; [done| |].
    { cbn [WriteHeader Header_Set Header]. apply lookup_insert_eq. }
    rewrite Ht. cbn [is_terminator].
    unfold terminators. cbn [WriteHeader Header_Set body].
    destruct (snd _); lia. }
  unfold handleStream, NewWriter.
  destruct stream as [err|events]; [destruct (canFlush w); apply Herr|].
  destruct (canFlush w); [|apply Herr].
  destruct (handleStream_loop_frame events (WriteHeaders w)) as [Hh Hs].
  destruct (handleStream_loop events (WriteHeaders w)) as [sse ended]. cbn [fst] in *.
  assert (status (if negb ended then fst (WriteDone sse) else sse) = status sse
          ∧ Header (if negb ended then fst (WriteDone sse) else sse) = Header sse)
    as [-> ->].
  { destruct ended; cbn [negb]; [done|]. unfold WriteDone, WriteData.
    by destruct (write_frame (Text (data_line "[DONE]")) sse) as [-> ->]. }
  rewrite Hh, Hs. split; [done|].
  unfold WriteHeaders. cbn [Header_Set Header].
  rewrite !lookup_insert_ne by done. apply lookup_insert_eq.
Qed.

(** ** The session lookup on an indexed model *)

Lemma LookupByModelWithSession_total r modelID sessionID :
  well_formed r →
  is_Some (models r !! modelID) →
  len (default [] (models r !! modelID)) < 2 ^ 32 →
  ∃ result, LookupByModelWithSession r modelID sessionID = Ret (Some result).
Proof.
  intros (Hs & _ & Hd) [l Hm] Hlen. unfold LookupByModelWithSession.
  rewrite Hm in *. cbn [default Datatypes.id] in Hlen.
  destruct (Hd _ _ Hm) as [_ Hne]. destruct l as [|bid0 rest]; [done|].
  destruct (Hs modelID (bid0 :: rest) bid0 Hm) as [b0 Hb0]; [by left|].
  destruct (String.eqb sessionID "").
  { destruct (firstHealthy _ _); [eauto|]. rewrite Hb0. eauto. }
  rewrite collect_spec. cbv beta iota zeta.
  set (found := omap (λ bid, backends r !! bid) (bid0 :: rest)).
  rewrite (filter_sort_Slice lessID lessID_asym lessID_negtrans).
  assert (b0 ∈ found) as Hfound.
  { apply list_elem_of_omap. exists bid0. split; [by left|done]. }
  assert (len (sort_Slice lessID found) < 2 ^ 32) as Hall.
  { unfold len in *. rewrite sort_Slice_length.
    pose proof (length_omap_le (λ bid, backends r !! bid) (bid0 :: rest)).
    unfold found. lia. }
  destruct (sort_Slice lessID found) as [|a all'] eqn:Hsorted.
  { apply (f_equal length) in Hsorted. rewrite sort_Slice_length in Hsorted.
    destruct found; [by apply elem_of_nil in Hfound|done]. }
  set (all := a :: all') in *.
  pose proof (len_nonempty a all') as Hpos. fold all in Hpos.
  destruct (Z.eqb_spec (len all) 0) as [|_]; [lia|].
  pose proof (Sum32_range sessionID) as Hh.
  rewrite (hashSessionToIndex_len _ all) by done.
  cbn [mbind outcome_bind].
  rewrite (slice_at_nth all _ a) by (apply Z.mod_pos_bound; lia).
  cbn [mbind outcome_bind].
  destruct (IsHealthy (nth _ all a)); [eauto|].
  pose proof (len_filter_le IsHealthy all) as Hle.
  destruct (List.filter IsHealthy all) as [|h0 healthy'] eqn:Hhealthy; [eauto|].
  set (healthy := h0 :: healthy') in *.
  pose proof (len_nonempty h0 healthy') as Hhpos. fold healthy in Hhpos.
  destruct (Z.ltb_spec 0 (len healthy)) as [_|]; [|lia].
  rewrite (hashSessionToIndex_len _ healthy) by (done || lia).
  cbn [mbind outcome_bind].
  rewrite (slice_at_nth healthy _ h0) by (apply Z.mod_pos_bound; lia).
  eauto.
Qed.

(** ** [handleAPIRequest] *)

Section APIRequests.

Context {Req Resp : Type} (json_Encode : Resp → string).

Lemma handleAPIRequest_serve_header w backend sessionBroken apiReq
    (cfg : handlerConfig (Req := Req) (Resp := Resp)) :
  Header (handleAPIRequest_serve json_Encode w backend sessionBroken apiReq cfg)
    !! SessionBrokenHeader
  = if sessionBroken then Some "true"%string else Header w !! SessionBrokenHeader.
Proof.
  unfold handleAPIRequest_serve.
  set (w' := if sessionBroken then Header_Set SessionBrokenHeader "true" w else w).
  assert (Header w' !! SessionBrokenHeader
          = if sessionBroken then Some "true"%string
            else Header w !! SessionBrokenHeader) as <-.
  { unfold w'. destruct sessionBroken; [|done].
    cbn [Header_Set Header]. apply lookup_insert_eq. }
  destruct (match stream cfg, isStreaming cfg with
            | Some streamFn, Some isStreaming =>
              if isStreaming apiReq then Some streamFn else None
            | _, _ => None
            end) as [streamFn|].
  - apply handleStream_frame. unfold SessionBrokenHeader.
    intros Hin. repeat (apply elem_of_cons in Hin as [Hin|Hin]; [done|]).
    by apply elem_of_nil in Hin.
  - destruct (execute cfg backend apiReq) as [err|resp].
    + by apply WriteError_frame.
    + destruct (write_frame (Text (json_Encode resp))
                  (Header_Set "Content-Type" "application/json" w')) as [-> _].
      cbn [Header_Set Header]. by rewrite lookup_insert_ne.
Qed.

(** X23.  A response of [handleAPIRequest] carries the header
    [X-Session-Broken], when the request's writer did not, only with
    the value [true], with session affinity enabled, for a request
    whose session id is not empty and whose model has an unhealthy
    backend: the session lookup reported the session broken. *)
Theorem session_broken_header {Logger Discoverer : Type}
    (r : Handlers.Router (Logger := Logger) (Discoverer := Discoverer)) w decoded sessionID
    (cfg : handlerConfig (Req := Req) (Resp := Resp)) w' :
  Header w !! SessionBrokenHeader = None →
  handleAPIRequest json_Encode r w decoded sessionID cfg = Ret w' →
  is_Some (Header w' !! SessionBrokenHeader) →
  Header w' !! SessionBrokenHeader = Some "true"%string
  ∧ sessionAffinity r = true
  ∧ sessionID ≠ EmptyString
  ∧ ∃ apiReq result,
      decoded = inr apiReq
      ∧ LookupByModelWithSession (registry r) (getModel cfg apiReq) sessionID
        = Ret (Some result)
      ∧ SessionBroken result = true
      ∧ ∃ preferred, preferred ∈ mapped (registry r) (getModel cfg apiReq)
                     ∧ IsHealthy preferred = false.
Proof.
  intros Hw. unfold handleAPIRequest.
  destruct decoded as [err|apiReq].
  { intros [= <-]. rewrite WriteError_frame, Hw by done. by intros [? ?]. }
  set (model := getModel cfg apiReq).
  set (fallback := if negb (String.eqb (defaultBackend r) "")
                   then LookupByID (registry r) (defaultBackend r) else None).
  assert (∀ chosen : option (Backend * bool),
            match chosen with
            | None =>
              Ret (WriteError 404
                     (APIErrors.NotFoundError ("model not found: " ++ model)%string) w)
            | Some (backend, sessionBroken) =>
              Ret (handleAPIRequest_serve json_Encode w backend sessionBroken apiReq cfg)
            end = Ret w' →
            is_Some (Header w' !! SessionBrokenHeader) →
            Header w' !! SessionBrokenHeader = Some "true"%string
            ∧ ∃ backend, chosen = Some (backend, true)) as Hchosen.
  { intros [[backend broken]|].
    - intros [= <-]. rewrite handleAPIRequest_serve_header.
      destruct broken; [eauto|]. rewrite Hw. by intros [? ?].
    - intros [= <-]. rewrite WriteError_frame, Hw by done. by intros [? ?]. }
  destruct (sessionAffinity r).
  - destruct (LookupByModelWithSession (registry r) model sessionID)
      as [[result|]|] eqn:Hl; cbn [mbind outcome_bind]; [| |done].
    + intros Hret Hsome.
      destruct (Hchosen (Some (Result_Backend result, SessionBroken result)) Hret Hsome)
        as [Hh [backend [= _ Hb]]].
      destruct (LookupByModelWithSession_result _ _ _ _ Hl) as (_ & _ & Hbroken).
      destruct (Hbroken Hb) as [Hs Hp].
      split_and!; [done..|]. by exists apiReq, result.
    + intros Hret Hsome.
      destruct (Hchosen ((λ backend, (backend, false)) <$> fallback) Hret Hsome)
        as [_ [backend Hb]].
      by destruct fallback.
  - destruct (LookupByModel (registry r) model) as [b|]; cbn [mbind outcome_bind];
      intros Hret Hsome.
    + by destruct (Hchosen (Some (b, false)) Hret Hsome) as [_ [backend Hb]].
    + destruct (Hchosen ((λ backend, (backend, false)) <$> fallback) Hret Hsome)
        as [_ [backend Hb]].
      by destruct fallback.
Qed.

(** X24.  For a model that is not a key of the index, with or without
    session affinity, [handleAPIRequest] serves the request from the
    default backend if one is configured and registered, without
    reporting a broken session, and answers 404 [model_not_found]
    otherwise. *)
Theorem unknown_model_default_backend {Logger Discoverer : Type}
    (r : Handlers.Router (Logger := Logger) (Discoverer := Discoverer)) w apiReq sessionID
    (cfg : handlerConfig (Req := Req) (Resp := Resp)) :
  models (registry r) !! getModel cfg apiReq = None →
  handleAPIRequest json_Encode r w (inr apiReq) sessionID cfg
  = Ret match (if String.eqb (defaultBackend r) "" then None
               else LookupByID (registry r) (defaultBackend r)) with
        | Some backend => handleAPIRequest_serve json_Encode w backend false apiReq cfg
        | None =>
          WriteError 404
            (APIErrors.NotFoundError
               ("model not found: " ++ getModel cfg apiReq)%string) w
        end.
Proof.
  intros Hm. unfold handleAPIRequest, LookupByModelWithSession, LookupByModel.
  rewrite Hm. destruct (sessionAffinity r); cbn [mbind outcome_bind];
    destruct (String.eqb (defaultBackend r) ""); cbn [negb]; try done;
    by destruct (LookupByID _ _).
Qed.

(** X25.  A request for a model that is a key of the index, in a
    registry reached by the registry operations whose sequence for the
    model is shorter than [2^32], is served by a backend the lookups
    return for this model: it is never answered 404 and never sent to
    the default backend, and the handler does not panic. *)
Theorem indexed_model_is_served {Logger Discoverer : Type} ops
    (r : Handlers.Router (Logger := Logger) (Discoverer := Discoverer)) w apiReq sessionID
    (cfg : handlerConfig (Req := Req) (Resp := Resp)) :
  registry r = run ops →
  is_Some (models (run ops) !! getModel cfg apiReq) →
  len (default [] (models (run ops) !! getModel cfg apiReq)) < 2 ^ 32 →
  ∃ backend sessionBroken,
    returned (run ops) (getModel cfg apiReq) backend
    ∧ handleAPIRequest json_Encode r w (inr apiReq) sessionID cfg
      = Ret (handleAPIRequest_serve json_Encode w backend sessionBroken apiReq cfg).
Proof.
  intros Hr Hm Hlen. unfold handleAPIRequest. rewrite Hr.
  pose proof (well_formed_run ops) as Hwf.
  destruct (sessionAffinity r).
  - destruct (LookupByModelWithSession_total _ _ sessionID Hwf Hm Hlen)
      as [[backend broken] Hl].
    rewrite Hl. cbn [mbind outcome_bind Result_Backend SessionBroken].
    exists backend, broken. split; [|done]. right. eauto.
  - destruct (proj2 (LookupByModel_is_Some _ _ Hwf) Hm) as [backend Hl].
    rewrite Hl. cbn [mbind outcome_bind].
    exists backend, false. split; [by left|done].
Qed.

End APIRequests.

(** X23 on the fleet: the session [session-xyz] hashes to the
    unhealthy [backend-a] and is served by [backend-c]. *)
Lemma session_broken_header_witness :
  ∃ w', handleAPIRequest (λ resp : string, resp) affine client (inr request)
          "session-xyz" chat_config = Ret w'
        ∧ Header w' !! SessionBrokenHeader = Some "true"%string.
Proof.
  eexists. split; [vm_compute; reflexivity|].
  eapply (session_broken_header (λ resp : string, resp) affine client (inr request)
            "session-xyz" chat_config).
  - reflexivity.
  - vm_compute. reflexivity.
  - vm_compute. eauto.
Defined.

(** X24: nobody serves the model, and [backend-b] is the default. *)
Lemma unknown_model_default_backend_witness :
  handleAPIRequest (λ resp : string, resp) with_default client (inr request_unknown)
    "" chat_config
  = Ret (handleAPIRequest_serve (λ resp : string, resp) client
           (newMockBackend "backend-b" true) false request_unknown chat_config).
Proof.
  rewrite (unknown_model_default_backend (λ resp : string, resp) with_default client
             request_unknown "" chat_config); [|vm_compute; reflexivity].
  vm_compute. reflexivity.
Defined.

(** X25 on the fleet. *)
Lemma indexed_model_is_served_witness :
  ∃ backend sessionBroken,
    returned (run fleet_ops) "test-model" backend
    ∧ handleAPIRequest (λ resp : string, resp) affine client (inr request)
        "session-xyz" chat_config
      = Ret (handleAPIRequest_serve (λ resp : string, resp) client backend
               sessionBroken request chat_config).
Proof.
  apply (indexed_model_is_served (λ resp : string, resp) fleet_ops affine client
           request "session-xyz" chat_config).
  - reflexivity.
  - vm_compute. eauto.
  - vm_compute. reflexivity.
Defined.

(** ** [handleGetModel] *)

(** X26.  For a model id given in the path, [handleGetModel] answers
    with a model of this id when a backend that answered the listing
    reported it, and with 404 [model_not_found] when none did; the
    registry is left as [AllModels] leaves it. *)
Theorem handleGetModel_reported json_Encode pathValue urlPath visited r w :
  pathValue ≠ EmptyString →
  (handleGetModel json_Encode pathValue urlPath visited r w).1 = (AllModels visited r).1
  ∧ ((reported visited pathValue
      ∧ ∃ model, Model_ID model = pathValue
          ∧ (handleGetModel json_Encode pathValue urlPath visited r w).2
            = fst (write (Text (json_Encode model))
                         (Header_Set "Content-Type" "application/json" w)))
     ∨ (¬ reported visited pathValue
        ∧ (handleGetModel json_Encode pathValue urlPath visited r w).2
          = WriteError 404
              (APIErrors.NotFoundError ("model not found: " ++ pathValue)%string) w)).
Proof.
  intros Hp. unfold handleGetModel.
  destruct (String.eqb_spec pathValue "") as [|_]; [done|].
  destruct (String.eqb_spec pathValue "") as [|_]; [done|].
  destruct (AllModels_listed visited r) as (allModels & -> & _ & Hall).
  cbn [fst snd].
  destruct (List.find _ allModels) as [model|] eqn:Hfind; cbn [fst snd].
  - split; [done|]. left.
    apply find_some in Hfind as [Hin Heq%String.eqb_eq].
    split; [|eauto]. apply Hall. rewrite <- Heq.
    apply list_elem_of_fmap_2. by apply list_elem_of_In.
  - split; [done|]. right. split; [|done].
    intros (model & -> & Hin%list_elem_of_In)%Hall%list_elem_of_fmap.
    pose proof (find_none _ _ Hfind _ Hin) as Hne. cbv beta in Hne.
    by rewrite String.eqb_refl in Hne.
Qed.

(** X26 on the fleet: [small] is reported by [backend-a]. *)
Lemma handleGetModel_reported_witness :
  (handleGetModel Model_ID "small" "/v1/models/small" fleet_visit fleet client).2
  = fst (write (Text "small") (Header_Set "Content-Type" "application/json" client)).
Proof.
  destruct (handleGetModel_reported Model_ID "small" "/v1/models/small"
              fleet_visit fleet client)
    as [_ [(_ & model & _ & _)|(Hnot & _)]]; [discriminate| |].
  - vm_compute. reflexivity.
  - destruct Hnot. exists (newMockBackend "backend-a" false),
      [Scenario.model "test-model"; Scenario.model "small"].
    split; [by left|]. vm_compute. apply list_elem_of_In. simpl. tauto.
Defined.


(** ** [NewRouter] and its options *)

Lemma NewRouter_options_app {Logger Discoverer : Type}
    (opts1 opts2 : list (Option (Logger := Logger) (Discoverer := Discoverer))) r :
  NewRouter_options (opts1 ++ opts2) r
  = match NewRouter_options opts1 r with
    | inl err => inl err
    | inr r' => NewRouter_options opts2 r'
    end.
Proof.
  revert r. induction opts1 as [|opt opts1 IH]; intros r; [done|].
  cbn [app NewRouter_options]. destruct (opt r) as [r' [err|]]; [done|]. apply IH.
Qed.

Lemma NewRouter_options_package {Logger Discoverer : Type}
    (opts : list (Option (Logger := Logger) (Discoverer := Discoverer))) r :
  Forall package_option opts →
  ∃ r', NewRouter_options opts r = inr r'
        ∧ registry r' = registry r
        ∧ ((∀ enabled, WithSessionAffinity enabled ∉ opts) →
           sessionAffinity r' = sessionAffinity r)
        ∧ ((∀ backendID, WithDefaultBackend backendID ∉ opts) →
           defaultBackend r' = defaultBackend r).
Proof.
  intros Hopts. revert r.
  induction Hopts as [|opt opts Hopt _ IH]; intros r; cbn [NewRouter_options].
  { by exists r. }
  destruct Hopt; cbn;
    match goal with |- context [NewRouter_options opts ?r1] =>
      destruct (IH r1) as (r' & -> & Hreg & Haff & Hdef) end;
    exists r'; (split_and!; [done|done| |]); intros Hnot.
  all: try (rewrite Haff; [done|intros v Hin; apply (Hnot v); by right]).
  all: try (rewrite Hdef; [done|intros v Hin; apply (Hnot v); by right]).
  - destruct (Hnot backendID). by left.
  - destruct (Hnot enabled). by left.
Qed.

(** X27.  [NewRouter] does not fail on options of the package, and
    the router starts with an empty registry and, unless an option
    says otherwise, without session affinity and without a default
    backend; the last [WithSessionAffinity] decides; an option that
    fails makes [NewRouter] return its error. *)
Theorem NewRouter_package_options {Logger Discoverer : Type} (slog_Default : Logger)
    (opts : list (Option (Logger := Logger) (Discoverer := Discoverer))) :
  Forall package_option opts →
  (∃ r, NewRouter slog_Default opts = inr r
        ∧ registry r = Registry.NewBackendRegistry
        ∧ ((∀ enabled, WithSessionAffinity enabled ∉ opts) → sessionAffinity r = false)
        ∧ ((∀ backendID, WithDefaultBackend backendID ∉ opts) →
           defaultBackend r = EmptyString))
  ∧ (∀ enabled,
       ∃ r, NewRouter slog_Default (opts ++ [WithSessionAffinity enabled]) = inr r
            ∧ sessionAffinity r = enabled)
  ∧ (∀ opt err opts',
       (∀ r, (opt r).2 = Some err) →
       NewRouter slog_Default (opts ++ opt :: opts') = inl err).
Proof.
  intros Hopts. unfold NewRouter.
  set (r0 := {| registry := Registry.NewBackendRegistry; discoverers := [];
                httpClient := {| Timeout := 5 * Minute |}; logger := slog_Default;
                defaultBackend := ""; healthCheckInterval := 30 * Second;
                sessionAffinity := false |}).
  destruct (NewRouter_options_package opts r0 Hopts) as (r & Hr & Hreg & Haff & Hdef).
  split_and!.
  - exists r. by split_and!.
  - intros enabled. rewrite NewRouter_options_app, Hr. cbn. eauto.
  - intros opt err opts' Hopt. rewrite NewRouter_options_app, Hr.
    cbn [NewRouter_options]. specialize (Hopt r).
    destruct (opt r) as [r' err']. cbn [snd] in Hopt. by rewrite Hopt.
Qed.

(** X27 for a router with a discoverer and session affinity. *)
Lemma NewRouter_package_options_witness :
  ∃ r, NewRouter (Logger := unit) (Discoverer := string) ()
         [WithDiscoverer "docker"%string; WithSessionAffinity true] = inr r
       ∧ registry r = Registry.NewBackendRegistry.
Proof.
  destruct (NewRouter_package_options (Logger := unit) (Discoverer := string) ()
              [WithDiscoverer "docker"%string; WithSessionAffinity true])
    as [(r & Hr & Hreg & _) _]; [repeat constructor|].
  by exists r.
Defined.

End RouterHandlers.

(** * The calls of the generic backend *)

Section GenericBackendCalls.

Import Backends GenericCalls.

(** X28.  [HealthCheck] marks the backend healthy exactly when it
    returns no error, that is when the models request could be built
    and sent, was answered 200 and its body decoded; the decoded models
    are then the cache of the backend.  A failed check leaves the cache
    as it was. *)
Theorem HealthCheck_outcome {URL : Type} decode newreq do (b : GenericBackend (URL := URL)) :
  (Backends.IsHealthy (HealthCheck decode newreq do b).1 = true
   ↔ (HealthCheck decode newreq do b).2 = None)
  ∧ (Backends.IsHealthy (HealthCheck decode newreq do b).1 = true
     ↔ newreq = None
       ∧ ∃ resp, do = inr resp ∧ StatusCode resp = 200
                 ∧ decode resp = inr (models (HealthCheck decode newreq do b).1))
  ∧ (Backends.IsHealthy (HealthCheck decode newreq do b).1 = false
     → models (HealthCheck decode newreq do b).1 = models b).
Proof.
  unfold HealthCheck, Models, StatusOK.
  destruct newreq as [err|]; cbn.
  { split_and!; [done| |done]. split; [done|]. by intros [? _]. }
  destruct do as [err|resp]; cbn.
  { split_and!; [done| |done]. split; [done|]. by intros (_ & ? & ? & _). }
  destruct (Z.eqb_spec (StatusCode resp) 200) as [H200|H200]; cbn.
  - destruct (decode resp) as [err|data] eqn:Hd; cbn.
    + split_and!; [done| |done]. split; [done|].
      intros (_ & resp' & [= <-] & _ & Hd'). congruence.
    + split_and!; [done| |done]. split; [|done].
      intros _. split; [done|]. by exists resp.
  - split_and!; [done| |done]. split; [done|].
    intros (_ & resp' & [= <-] & ? & _). done.
Qed.

(** X29.  [ChatCompletion], [Completion] and [Embeddings] return a
    response only when the request was marshalled, built and sent, the
    upstream answered 200 and the body decoded to this response. *)
Theorem calls_return_on_200 {Req Resp : Type}
    (json_Marshal : Req → error + string) (decode : Response → error + Resp)
    http req resp' :
  ChatCompletion json_Marshal decode http req = inr resp'
  ∨ Completion json_Marshal decode http req = inr resp'
  ∨ Embeddings json_Marshal decode http req = inr resp' →
  ∃ body resp,
    json_Marshal req = inr body
    ∧ http body = (None, inr resp)
    ∧ StatusCode resp = 200
    ∧ decode resp = inr resp'.
Proof.
  unfold ChatCompletion, Completion, Embeddings, StatusOK.
  destruct (json_Marshal req) as [err|body]; [by intros [?|[?|?]]|].
  destruct (http body) as [[err|] [err'|resp]] eqn:Hh; cbn [fst snd];
    try by intros [?|[?|?]].
  destruct (Z.eqb_spec (StatusCode resp) 200) as [H200|H200]; cbn [negb];
    [|by intros [?|[?|?]]].
  destruct (decode resp) as [err|r] eqn:Hd; [by intros [?|[?|?]]|].
  intros H. exists body, resp. split_and!; try done.
  by destruct H as [[= <-]|[[= <-]|[= <-]]].
Qed.

(** X29 for an upstream that answers 200. *)
Lemma calls_return_on_200_witness :
  ChatCompletion (λ _ : string, inr "body"%string) (λ resp, inr (Body resp))
    (λ _, (None, inr Fixtures.models_response)) "request"%string
  = inr "{}"%string
  ∧ ∃ resp, StatusCode resp = 200 ∧ Body resp = "{}"%string.
Proof.
  split; [reflexivity|].
  destruct (calls_return_on_200 (λ _ : string, inr "body"%string)
              (λ resp, inr (Body resp)) (λ _, (None, inr Fixtures.models_response))
              "request"%string "{}"%string)
    as (body & resp & _ & _ & H200 & [= Hbody]); [left; reflexivity|].
  by exists resp.
Defined.

End GenericBackendCalls.
